(** * Weather dashboard: forecast aggregation, unit conversion and the
      saved-city collection

    A shallow embedding of [utils/helpers.js] ([convertTemperature],
    [processForecastData], [getMostFrequent]), [utils/storage.js]
    ([getSavedCities], [saveCities], [addCity], [removeCity],
    [updateCityOrder]) and [composables/useCities.js], with the properties
    the specification states about them.

    JavaScript numbers are IEEE binary64 values.  The helpers are written
    once, over an interface [Number] of the arithmetic they use, and the
    interface has two instances: [Exact.number] interprets the arithmetic
    over the rationals, [Binary64.number] over Rocq's primitive binary64
    floats, which round exactly as the JavaScript engine does. *)

From Stdlib Require Import ZArith QArith Qround Lqa PrimFloat Uint63.
From stdpp Require Import gmap strings list pretty.

Set Warnings "-inexact-float".
Close Scope Q_scope.

(** ** The arithmetic of the run-time *)

Class Number (N : Type) := {
  nlit : Z → N;                  (* an integer literal, or an array length *)
  nadd : N → N → N;
  nsub : N → N → N;
  nmul : N → N → N;
  ndiv : N → N → N;
  nseq : N → N → bool;           (* [===] on numbers *)
  Math_min : list N → N;         (* [Math.min(...xs)] *)
  Math_max : list N → N;         (* [Math.max(...xs)] *)
  Math_round : N → N
}.

Declare Scope js_scope.
Delimit Scope js_scope with js.
Infix "+" := nadd : js_scope.
Infix "-" := nsub : js_scope.
Infix "*" := nmul : js_scope.
Infix "/" := ndiv : js_scope.

(** Exact arithmetic.  [Q] has no infinities and no NaN: [Math.min()] and
    [Math.max()] of no argument, which are [Infinity] and [-Infinity] in
    JavaScript, are given the value 0 here; the aggregation never applies
    them to an empty array (see [buckets_nonempty]).  Nor does it divide by
    zero: the divisors are 5, 9, 10 and the length of a non-empty array. *)
Module Exact.

Definition lt (x y : Q) : bool := negb (Qle_bool y x).

Definition min2 (lowest x : Q) : Q := if lt x lowest then x else lowest.
Definition max2 (highest x : Q) : Q := if lt highest x then x else highest.

Definition min (xs : list Q) : Q :=
  match xs with
  | [] => 0%Q
  | x :: rest => fold_left min2 rest x
  end.

Definition max (xs : list Q) : Q :=
  match xs with
  | [] => 0%Q
  | x :: rest => fold_left max2 rest x
  end.

(* the integer nearest to x, halves rounded up *)
Definition round (x : Q) : Q := inject_Z (Qfloor (x + (1 # 2))%Q).

#[global] Instance number : Number Q := {|
  nlit := inject_Z;
  nadd := Qplus;
  nsub := Qminus;
  nmul := Qmult;
  ndiv := Qdiv;
  nseq := Qeq_bool;
  Math_min := min;
  Math_max := max;
  Math_round := round
|}.

End Exact.

(** Binary64 arithmetic, as the engine computes it. *)
Module Binary64.

Open Scope float_scope.

Definition lit (z : Z) : float :=
  match z with
  | Z0 => 0
  | Zpos _ => of_uint63 (Uint63.of_Z z)
  | Zneg p => - of_uint63 (Uint63.of_Z (Zpos p))
  end.

(* Math.min: NaN if an argument is NaN, -0 below +0 *)
Definition min_step (lowest x : float) : float :=
  if PrimFloat.is_nan lowest || PrimFloat.is_nan x then nan
  else if PrimFloat.is_zero x && PrimFloat.is_zero lowest then
    (if PrimFloat.get_sign x then x else lowest)
  else if PrimFloat.ltb x lowest then x else lowest.

Definition max_step (highest x : float) : float :=
  if PrimFloat.is_nan highest || PrimFloat.is_nan x then nan
  else if PrimFloat.is_zero x && PrimFloat.is_zero highest then
    (if PrimFloat.get_sign x then highest else x)
  else if PrimFloat.ltb highest x then x else highest.

Definition min (xs : list float) : float := fold_left min_step xs infinity.
Definition max (xs : list float) : float := fold_left max_step xs neg_infinity.

Definition two52 : float := 4503599627370496.

(* floor of a finite x with 0 <= x < 2^52: adding 2^52 rounds x to an
   integer, which is the floor or one above it *)
Definition floor_small (x : float) : float :=
  let t := (x + two52) - two52 in
  if PrimFloat.ltb x t then t - 1 else t.

(* Math.round: floor(x + 1/2) computed without rounding error *)
Definition round (x : float) : float :=
  if PrimFloat.is_nan x || PrimFloat.is_infinity x || PrimFloat.is_zero x then x
  else if PrimFloat.leb two52 (abs x) then x
  else if PrimFloat.ltb 0 x then
    let f := floor_small x in
    if PrimFloat.leb 0.5 (x - f) then f + 1 else f
  else
    let a := abs x in
    let f := floor_small a in
    - (if PrimFloat.ltb 0.5 (a - f) then f + 1 else f).

#[global] Instance number : Number float := {|
  nlit := lit;
  nadd := PrimFloat.add;
  nsub := PrimFloat.sub;
  nmul := PrimFloat.mul;
  ndiv := PrimFloat.div;
  nseq := PrimFloat.eqb;
  Math_min := min;
  Math_max := max;
  Math_round := round
|}.

End Binary64.

(** ** The host environment

    What the engine supplies besides arithmetic: the rendering of a number
    in a template literal, and of a [Date] (modelled by its time value,
    the milliseconds since the epoch) by [toDateString], which depends on
    the local time zone, and by [toISOString]. *)

Class Show (N : Type) := {
  Number_toString : N → string
}.

Class Host := {
  toDateString : Z → string;
  toISOString : Z → string
}.

(** ** Objects used as dictionaries

    [Obj.t V] is an object whose own properties are set one by one under
    string keys, none of which is an array index: [Object.values]
    enumerates them in the order in which they were created.  Properties
    inherited from [Object.prototype] are not modelled: no key is the name
    of one of them. *)
Module Obj.

Definition t (V : Type) : Type := list (string * V).

Fixpoint get {V} (key : string) (o : t V) : option V :=
  match o with
  | [] => None
  | (k, v) :: rest => if String.eqb k key then Some v else get key rest
  end.

(* o[key] = v for a key that o does not have yet *)
Definition add {V} (key : string) (v : V) (o : t V) : t V := o ++ [(key, v)].

(* mutation of the value held under key *)
Fixpoint update {V} (key : string) (f : V → V) (o : t V) : t V :=
  match o with
  | [] => []
  | (k, v) :: rest =>
      if String.eqb k key then (k, f v) :: rest
      else (k, v) :: update key f rest
  end.

Definition values {V} (o : t V) : list V := o.*2.

End Obj.

(** ** utils/helpers.js *)

(** One element of [forecast.list], with the fields the aggregation reads:
    [dt], [main.temp], [main.humidity], [wind.speed], [weather[0].main] and
    [weather[0].icon]. *)
Module Item.
Record t {N : Type} := {
  dt : Z;
  main_temp : N;
  main_humidity : N;
  wind_speed : N;
  weather_main : string;
  weather_icon : string
}.
Arguments t : clear implicits.
End Item.

(** A value of [dailyData]. *)
Module Day.
Record t {N : Type} := {
  date : Z;
  temps : list N;
  conditions : list string;
  humidity : list N;
  wind : list N;
  icons : list string
}.
Arguments t : clear implicits.
End Day.

(** An element of the result of [processForecastData]; [condition] and
    [icon] are [None] where JavaScript has [undefined]. *)
Module Summary.
Record t {N : Type} := {
  date : Z;
  tempMin : N;
  tempMax : N;
  tempAvg : N;
  condition : option string;
  humidity : N;
  wind : N;
  icon : option string
}.
Arguments t : clear implicits.
End Summary.

(** [counts = {}] is an object literal: besides the properties the loop
    gives it, it has those of [Object.prototype], whose names are these. *)
Definition Object_prototype : list string :=
  [ "constructor"; "hasOwnProperty"; "isPrototypeOf"; "propertyIsEnumerable";
    "toLocaleString"; "toString"; "valueOf"; "__proto__";
    "__defineGetter__"; "__defineSetter__"; "__lookupGetter__";
    "__lookupSetter__" ].

(** A value of a property of [counts]: a number the loop has stored, or a
    value that is not a number: the function or the object that
    [Object.prototype] gives, or the string that [+ 1] makes of one of
    these.  It is truthy, and no number is below it: compared with a number
    it counts as NaN. *)
Inductive counter :=
  | Counted (n : nat)
  | NotANumber.

(* counts[item]: an own property, else an inherited one, else undefined *)
Definition counts_get (counts : gmap string counter) (item : string)
    : option counter :=
  match counts !! item with
  | Some c => Some c
  | None =>
      if bool_decide (item ∈ Object_prototype) then Some NotANumber else None
  end.

(* counts[item] = c, for a number or a string c: the setter of __proto__
   ignores a value that is not an object *)
Definition counts_set (counts : gmap string counter) (item : string) (c : counter)
    : gmap string counter :=
  if String.eqb item "__proto__" then counts else <[item := c]> counts.

(** The body of the [forEach] of [getMostFrequent], on the three variables
    it updates. *)
Definition count_item (st : gmap string counter * nat * option string)
    (item : string) : gmap string counter * nat * option string :=
  let '(counts, maxCount, maxItem) := st in
  (* (counts[item] || 0) + 1 *)
  let c := match counts_get counts item with
           | Some (Counted n) => Counted (n + 1)
           | Some NotANumber => NotANumber
           | None => Counted 1
           end in
  let counts := counts_set counts item c in
  (* counts[item] > maxCount *)
  match counts_get counts item with
  | Some (Counted n) =>
      if maxCount <? n then (counts, n, Some item) else (counts, maxCount, maxItem)
  | Some NotANumber | None => (counts, maxCount, maxItem)
  end.

Definition getMostFrequent (arr : list string) : option string :=
  (fold_left count_item arr (∅, 0, head arr)).2.

Section Helpers.

Context {N : Type} `{Number N} `{Host}.

Definition convertTemperature (temp : N) (from to : string) : N :=
  if String.eqb from to then temp
  else if String.eqb from "celsius" && String.eqb to "fahrenheit" then
    ((temp * nlit 9 / nlit 5) + nlit 32)%js
  else if String.eqb from "fahrenheit" && String.eqb to "celsius" then
    ((temp - nlit 32) * nlit 5 / nlit 9)%js
  else temp.

Definition push_item (item : Item.t N) (day : Day.t N) : Day.t N :=
  {| Day.date := Day.date day;
     Day.temps := Day.temps day ++ [Item.main_temp item];
     Day.conditions := Day.conditions day ++ [Item.weather_main item];
     Day.humidity := Day.humidity day ++ [Item.main_humidity item];
     Day.wind := Day.wind day ++ [Item.wind_speed item];
     Day.icons := Day.icons day ++ [Item.weather_icon item] |}.

(* the body of the forEach of processForecastData *)
Definition collect (dailyData : Obj.t (Day.t N)) (item : Item.t N)
    : Obj.t (Day.t N) :=
  let date := toDateString (Item.dt item * 1000) in
  let dailyData :=
    match Obj.get date dailyData with
    | None =>
        Obj.add date
          {| Day.date := Item.dt item * 1000; Day.temps := [];
             Day.conditions := []; Day.humidity := []; Day.wind := [];
             Day.icons := [] |} dailyData
    | Some _ => dailyData
    end in
  Obj.update date (push_item item) dailyData.

(* xs.reduce((a, b) => a + b, 0) *)
Definition sum (xs : list N) : N := fold_left nadd xs (nlit 0).

Definition summarise (day : Day.t N) : Summary.t N :=
  {| Summary.date := Day.date day;
     Summary.tempMin := Math_min (Day.temps day);
     Summary.tempMax := Math_max (Day.temps day);
     Summary.tempAvg :=
       (sum (Day.temps day) / nlit (Z.of_nat (length (Day.temps day))))%js;
     Summary.condition := getMostFrequent (Day.conditions day);
     Summary.humidity :=
       Math_round
         (sum (Day.humidity day) / nlit (Z.of_nat (length (Day.humidity day))))%js;
     Summary.wind :=
       (Math_round
          (sum (Day.wind day) / nlit (Z.of_nat (length (Day.wind day))) * nlit 10)
        / nlit 10)%js;
     Summary.icon := getMostFrequent (Day.icons day) |}.

Definition processForecastData (forecastList : list (Item.t N))
    : list (Summary.t N) :=
  let dailyData := fold_left collect forecastList [] in
  take 5 (summarise <$> Obj.values dailyData).

End Helpers.

(** ** The saved cities *)

Module City.
Record t {N : Type} := {
  id : string;
  name : string;
  country : string;
  state : string;
  lat : N;
  lon : N;
  displayName : string;
  isCurrentLocation : option bool;
  addedAt : option string
}.
Arguments t : clear implicits.
End City.

(** An element of an array of cities.  [moveCity] can put [undefined] into
    the array, and [JSON.stringify] writes an [undefined] element as
    [null]. *)
Inductive value (N : Type) :=
  | VCity (c : City.t N)
  | VUndefined
  | VNull.
Arguments VCity {N} c.
Arguments VUndefined {N}.
Arguments VNull {N}.

Definition is_city {N} (v : value N) : Prop :=
  match v with VCity _ => True | _ => False end.

(** The state the two modules act on: the two refs of the composable, the
    entry of local storage under [STORAGE_KEYS.CITIES] (as the array its
    JSON text parses to, [None] while the key is absent), and the system
    clock: [clock k] is the time returned by the [k]-th reading.  Writes to
    local storage succeed, and only [saveCities] writes the entry. *)
Record World {N : Type} := {
  cities : list (value N);
  selectedCities : list string;
  localStorage : option (list (value N));
  clock : nat → Z;
  reads : nat
}.
Arguments World : clear implicits.

(** A call either returns or throws a [TypeError] (a property is read on
    [undefined] or [null]), in a new state. *)
Inductive outcome (N A : Type) :=
  | Returns (a : A) (w : World N)
  | Throws (w : World N).
Arguments Returns {N A} a w.
Arguments Throws {N A} w.

Definition Js (N A : Type) : Type := World N → outcome N A.

Definition ret {N A} (a : A) : Js N A := λ w, Returns a w.

Definition bind {N A B} (m : Js N A) (k : A → Js N B) : Js N B :=
  λ w, match m w with
       | Returns a w' => k a w'
       | Throws w' => Throws w'
       end.

Notation "'let*' x ':=' m 'in' k" := (bind m (λ x, k))
  (at level 10, x name, m at level 100, k at level 200).
Notation "m ;;; k" := (bind m (λ _, k))
  (at level 100, k at level 200, right associativity).

(* the value of a callback-driven scan that may read a property of
   undefined or null *)
Definition or_throw {N A} (o : option A) : Js N A :=
  λ w, match o with Some a => Returns a w | None => Throws w end.

Definition get_cities {N} : Js N (list (value N)) := λ w, Returns (cities w) w.

Definition set_cities {N} (cs : list (value N)) : Js N unit :=
  λ w, Returns tt
    {| cities := cs; selectedCities := selectedCities w;
       localStorage := localStorage w; clock := clock w; reads := reads w |}.

Definition get_selectedCities {N} : Js N (list string) :=
  λ w, Returns (selectedCities w) w.

Definition set_selectedCities {N} (ids : list string) : Js N unit :=
  λ w, Returns tt
    {| cities := cities w; selectedCities := ids;
       localStorage := localStorage w; clock := clock w; reads := reads w |}.

Definition localStorage_getItem {N} : Js N (option (list (value N))) :=
  λ w, Returns (localStorage w) w.

Definition localStorage_setItem {N} (json : list (value N)) : Js N unit :=
  λ w, Returns tt
    {| cities := cities w; selectedCities := selectedCities w;
       localStorage := Some json; clock := clock w; reads := reads w |}.

(* Date.now(), and the time value of new Date() *)
Definition Date_now {N} : Js N Z :=
  λ w, Returns (clock w (reads w))
    {| cities := cities w; selectedCities := selectedCities w;
       localStorage := localStorage w; clock := clock w; reads := S (reads w) |}.

(** JSON.parse (JSON.stringify cs): numbers, strings and booleans come back
    as they were, an absent property stays absent, an [undefined] element
    comes back as [null]. *)
Definition JSON_value {N} (v : value N) : value N :=
  match v with
  | VCity c => VCity c
  | VUndefined | VNull => VNull
  end.

Definition JSON_roundtrip {N} (cs : list (value N)) : list (value N) :=
  JSON_value <$> cs.

(** ** Array methods *)

(** [arr.splice(start, deleteCount, ...items)] for integer arguments: the
    removed elements and the array left.  A negative [start] counts from
    the end, and [start] is clamped to the bounds of the array. *)
Definition clamp_index (len : nat) (start : Z) : nat :=
  Z.to_nat (if start <? 0 then Z.max (Z.of_nat len + start) 0
            else Z.min start (Z.of_nat len))%Z.

Definition splice {A} (start deleteCount : Z) (items : list A) (arr : list A)
    : list A * list A :=
  let actualStart := clamp_index (length arr) start in
  let actualDeleteCount :=
    Z.to_nat (Z.min (Z.max deleteCount 0)
                    (Z.of_nat (length arr) - Z.of_nat actualStart))%Z in
  (take actualDeleteCount (drop actualStart arr),
   take actualStart arr ++ items ++ drop (actualStart + actualDeleteCount) arr).

(** [arr.indexOf(x)] on strings. *)
Fixpoint indexOf (arr : list string) (x : string) : Z :=
  match arr with
  | [] => -1
  | y :: rest =>
      if String.eqb y x then 0
      else let i := indexOf rest x in if (i <? 0)%Z then -1 else (i + 1)
  end%Z.

Section Cities.

Context {N : Type} `{Number N} `{Show N} `{Host}.

(* c.lat === city.lat && c.lon === city.lon *)
Definition same_place (city c : City.t N) : bool :=
  nseq (City.lat c) (City.lat city) && nseq (City.lon c) (City.lon city).

(* cs.some(c => c.lat === city.lat && c.lon === city.lon) *)
Fixpoint some_same_place (city : City.t N) (cs : list (value N)) : option bool :=
  match cs with
  | [] => Some false
  | VCity c :: rest =>
      if same_place city c then Some true else some_same_place city rest
  | _ :: _ => None
  end.

(* cs.filter(city => city.id !== cityId) *)
Fixpoint filter_other_id (cityId : string) (cs : list (value N))
    : option (list (value N)) :=
  match cs with
  | [] => Some []
  | VCity c :: rest =>
      rest' ← filter_other_id cityId rest;
      Some (if String.eqb (City.id c) cityId then rest' else VCity c :: rest')
  | _ :: _ => None
  end.

(* cs.map(city => city.id) *)
Fixpoint map_id (cs : list (value N)) : option (list string) :=
  match cs with
  | [] => Some []
  | VCity c :: rest => ids ← map_id rest; Some (City.id c :: ids)
  | _ :: _ => None
  end.

(* { ...city, id: `${city.lat}-${city.lon}-${now}`, addedAt: iso } *)
Definition stamp (city : City.t N) (now : Z) (today : Z) : City.t N :=
  {| City.id :=
       Number_toString (City.lat city) +:+ "-" +:+
       Number_toString (City.lon city) +:+ "-" +:+ pretty now;
     City.name := City.name city;
     City.country := City.country city;
     City.state := City.state city;
     City.lat := City.lat city;
     City.lon := City.lon city;
     City.displayName := City.displayName city;
     City.isCurrentLocation := City.isCurrentLocation city;
     City.addedAt := Some (toISOString today) |}.

End Cities.

(** ** utils/storage.js *)

Module Storage.
Section Storage.

Context {N : Type} `{Number N} `{Show N} `{Host}.

Definition getSavedCities : Js N (list (value N)) :=
  let* cities := localStorage_getItem in
  ret (match cities with Some cs => cs | None => [] end).

Definition saveCities (cities : list (value N)) : Js N unit :=
  localStorage_setItem (JSON_roundtrip cities).

Definition addCity (city : City.t N) : Js N (list (value N)) :=
  let* cities := getSavedCities in
  let* exists_ := or_throw (some_same_place city cities) in
  (if negb exists_ then
     let* now := Date_now in
     let* today := Date_now in
     let newCity := stamp city now today in
     saveCities (cities ++ [VCity newCity])
   else ret tt) ;;;
  getSavedCities.

Definition removeCity (cityId : string) : Js N (list (value N)) :=
  let* cities := getSavedCities in
  let* filteredCities := or_throw (filter_other_id cityId cities) in
  saveCities filteredCities ;;;
  ret filteredCities.

Definition updateCityOrder (cities : list (value N)) : Js N unit :=
  saveCities cities.

End Storage.
End Storage.

(** ** composables/useCities.js *)

Module UseCities.
Section UseCities.

Context {N : Type} `{Number N} `{Show N} `{Host}.

(* the state in which useCities() leaves the composable *)
Definition useCities (stored : option (list (value N))) (clock : nat → Z)
    : World N :=
  {| cities := match stored with Some cs => cs | None => [] end;
     selectedCities := [];
     localStorage := stored;
     clock := clock;
     reads := 0 |}.

Definition maxCities : nat := 6.

Definition canAddMore : Js N bool :=
  let* cs := get_cities in
  ret (length cs <? maxCities).

Definition addCity (city : City.t N) : Js N bool :=
  let* can := canAddMore in
  if negb can then ret false
  else
    let* cs := get_cities in
    let* exists_ := or_throw (some_same_place city cs) in
    if exists_ then ret false
    else
      let* now := Date_now in
      let* today := Date_now in
      let newCity := stamp city now today in
      let* cs := get_cities in
      set_cities (cs ++ [VCity newCity]) ;;;
      Storage.addCity newCity ;;;
      ret true.

Definition removeCity (cityId : string) : Js N unit :=
  let* cs := get_cities in
  let* cs := or_throw (filter_other_id cityId cs) in
  set_cities cs ;;;
  Storage.removeCity cityId ;;;
  let* selected := get_selectedCities in
  set_selectedCities (filter (λ id, id ≠ cityId) selected).

Definition reorderCities (newOrder : list (value N)) : Js N unit :=
  set_cities newOrder ;;;
  Storage.updateCityOrder newOrder.

Definition moveCity (fromIndex toIndex : Z) : Js N unit :=
  let* citiesArray := get_cities in
  let '(removed, citiesArray) := splice fromIndex 1 [] citiesArray in
  let movedCity := match removed with v :: _ => v | [] => VUndefined end in
  let '(_, citiesArray) := splice toIndex 0 [movedCity] citiesArray in
  reorderCities citiesArray.

Definition toggleCitySelection (cityId : string) : Js N unit :=
  let* selected := get_selectedCities in
  let index := indexOf selected cityId in
  if (index =? -1)%Z then set_selectedCities (selected ++ [cityId])
  else set_selectedCities (splice index 1 [] selected).2.

Definition selectAllCities : Js N unit :=
  let* cs := get_cities in
  let* ids := or_throw (map_id cs) in
  set_selectedCities ids.

Definition clearSelection : Js N unit := set_selectedCities [].

Definition isCitySelected (cityId : string) : Js N bool :=
  let* selected := get_selectedCities in
  ret (bool_decide (cityId ∈ selected)).

Definition reloadCities : Js N unit :=
  let* cs := Storage.getSavedCities in
  set_cities cs.

End UseCities.
End UseCities.

(** ** A host: rational numbers, and the UTC time zone

    The proleptic Gregorian calendar, counted from the days since
    1970-01-01, a Thursday. *)

Module Utc.

Open Scope Z_scope.

Definition civil_from_days (days : Z) : Z * Z * Z :=
  let z := days + 719468 in
  let era := z / 146097 in
  let doe := z - era * 146097 in
  let yoe := (doe - doe / 1460 + doe / 36524 - doe / 146096) / 365 in
  let doy := doe - (365 * yoe + yoe / 4 - yoe / 100) in
  let mp := (5 * doy + 2) / 153 in
  let d := doy - (153 * mp + 2) / 5 + 1 in
  let m := if mp <? 10 then mp + 3 else mp - 9 in
  let y := yoe + era * 400 in
  (if m <=? 2 then y + 1 else y, m, d).

Definition pad (width : nat) (z : Z) : string :=
  let s := pretty z in
  String.concat EmptyString (replicate (width - String.length s) "0"%string) +:+ s.

Definition day_name (days : Z) : string :=
  nth (Z.to_nat ((days + 4) mod 7))
    ["Sun"; "Mon"; "Tue"; "Wed"; "Thu"; "Fri"; "Sat"]%string EmptyString.

Definition month_name (m : Z) : string :=
  nth (Z.to_nat (m - 1))
    ["Jan"; "Feb"; "Mar"; "Apr"; "May"; "Jun";
     "Jul"; "Aug"; "Sep"; "Oct"; "Nov"; "Dec"]%string EmptyString.

Definition date_string (ms : Z) : string :=
  let days := ms / 86400000 in
  let '(y, m, d) := civil_from_days days in
  day_name days +:+ " " +:+ month_name m +:+ " " +:+ pad 2 d +:+ " " +:+ pad 4 y.

Definition iso_string (ms : Z) : string :=
  let days := ms / 86400000 in
  let t := ms mod 86400000 in
  let '(y, m, d) := civil_from_days days in
  pad 4 y +:+ "-" +:+ pad 2 m +:+ "-" +:+ pad 2 d +:+ "T" +:+
  pad 2 (t / 3600000) +:+ ":" +:+ pad 2 (t / 60000 mod 60) +:+ ":" +:+
  pad 2 (t / 1000 mod 60) +:+ "." +:+ pad 3 (t mod 1000) +:+ "Z".

(* the decimal digits of r / d, 0 <= r < d, as far as the fuel goes *)
Fixpoint fraction (fuel : nat) (r d : Z) : string :=
  match fuel with
  | O => EmptyString
  | S fuel =>
      if r =? 0 then EmptyString
      else pretty (r * 10 / d) +:+ fraction fuel (r * 10 mod d) d
  end.

Definition number_string (q : Q) : string :=
  let n := Z.abs (Qnum q) in
  let d := Zpos (Qden q) in
  (if Qnum q <? 0 then "-" else EmptyString) +:+ pretty (n / d) +:+
  (if n mod d =? 0 then EmptyString else "." +:+ fraction 17 (n mod d) d).

#[global] Instance show : Show Q := {|
  Number_toString := number_string
|}.

#[global] Instance host : Host := {|
  toDateString := date_string;
  toISOString := iso_string
|}.

End Utc.

(** ** What the specification says of the dominant value

    [occurrences x arr] is the frequency of [x] in [arr].  The glossary
    asks for the most frequent element, ties broken by order of first
    appearance. *)

Definition occurrences (x : string) (arr : list string) : nat :=
  length (filter (λ y, y = x) arr).

Definition first_seen_dominant (arr : list string) (x : string) : Prop :=
  (∀ y, occurrences y arr ≤ occurrences x arr) ∧
  (∀ y, occurrences y arr = occurrences x arr → (indexOf arr x ≤ indexOf arr y)%Z).

(** ** States of the collection *)

(** What [getSavedCities] returns in a state. *)
Definition saved {N} (w : World N) : list (value N) :=
  match localStorage w with Some cs => cs | None => [] end.

Definition has_id {N} (cityId : string) (v : value N) : Prop :=
  match v with VCity c => City.id c = cityId | _ => False end.

#[global] Instance has_id_dec {N} (cityId : string) (v : value N) :
  Decision (has_id cityId v).
Proof. destruct v; simpl; apply _. Defined.

(** ** The invariant of the scan of [getMostFrequent]

    The elements of an array that the scan counts are those that are not
    names of [Object.prototype].  After the counted elements [seen] have
    been scanned: [counts] holds their frequencies, as numbers, and no
    number under a name of [Object.prototype]; [maxCount] is the largest
    frequency, and [maxItem] is the element whose count reached [maxCount]
    first; before any element has been counted [maxItem] is what it was
    at the start. *)

Definition counted (arr : list string) : list string :=
  filter (λ x, x ∉ Object_prototype) arr.

Definition reached_first (seen : list string) (maxCount : nat) (x : string) : Prop :=
  ∃ pre post,
    seen = pre ++ x :: post ∧
    occurrences x (pre ++ [x]) = maxCount ∧
    ∀ y, occurrences y pre < maxCount.

Definition scanned (start : option string) (seen : list string)
    (st : gmap string counter * nat * option string) : Prop :=
  let '(counts, maxCount, maxItem) := st in
  (∀ y, y ∉ Object_prototype →
        (counts !! y = None ∧ occurrences y seen = 0) ∨
        counts !! y = Some (Counted (occurrences y seen))) ∧
  (∀ y n, y ∈ Object_prototype → counts !! y ≠ Some (Counted n)) ∧
  (∀ y, occurrences y seen ≤ maxCount) ∧
  (seen = [] → maxCount = 0 ∧ maxItem = start) ∧
  (seen ≠ [] → ∃ x, maxItem = Some x ∧ reached_first seen maxCount x).

(** ** What the specification says of the grouping

    The distinct elements of [keys] in the order in which they are first
    encountered; the samples of a list that fall on a date; the record
    [dailyData] holds for the samples of one date. *)

Fixpoint first_seen_from (seen keys : list string) : list string :=
  match keys with
  | [] => []
  | k :: rest =>
      if decide (k ∈ seen) then first_seen_from seen rest
      else k :: first_seen_from (k :: seen) rest
  end.

Definition first_seen (keys : list string) : list string :=
  first_seen_from [] keys.

Section Grouping.

Context {N : Type} `{Number N} `{Host}.

Definition date_of (item : Item.t N) : string :=
  toDateString (Item.dt item * 1000).

Definition samples_on (date : string) (forecastList : list (Item.t N))
    : list (Item.t N) :=
  filter (λ item, date_of item = date) forecastList.

Definition day_of (items : list (Item.t N)) : Day.t N :=
  {| Day.date := match items with item :: _ => Item.dt item * 1000 | [] => 0 end;
     Day.temps := Item.main_temp <$> items;
     Day.conditions := Item.weather_main <$> items;
     Day.humidity := Item.main_humidity <$> items;
     Day.wind := Item.wind_speed <$> items;
     Day.icons := Item.weather_icon <$> items |}.

Definition grouped (forecastList : list (Item.t N)) : Obj.t (Day.t N) :=
  (λ date, (date, day_of (samples_on date forecastList)))
    <$> first_seen (date_of <$> forecastList).

End Grouping.

(** ** Sample data *)

(** Sample forecasts: 1 June 2024 (UTC) at three-hour intervals. *)

Definition sample {N : Type} `{Number N}
    (hour : Z) (temp : N) (main icon : string) : Item.t N :=
  {| Item.dt := 1717200000 + hour * 3600;
     Item.main_temp := temp;
     Item.main_humidity := nlit 60;
     Item.wind_speed := nlit 3;
     Item.weather_main := main;
     Item.weather_icon := icon |}.

Definition june_first_2024 {N : Type} `{Number N} : list (Item.t N) :=
  [ sample 0 (nlit 18) "Clear" "01n"; sample 3 (nlit 20) "Clear" "01n";
    sample 6 (nlit 22) "Clouds" "03d"; sample 9 (nlit 24) "Clear" "01d";
    sample 12 (nlit 23) "Rain" "10d"; sample 15 (nlit 21) "Clear" "01d";
    sample 18 (nlit 19) "Clear" "01d"; sample 21 (nlit 17) "Clear" "01n" ].

Definition three_tenths : list (Item.t float) :=
  [ sample 0 0.1%float "Clear" "01n"; sample 3 0.1%float "Clear" "01n";
    sample 6 0.1%float "Clear" "01d" ].

(** Sample cities, collections and clocks. *)

Definition place (name country : string) (lat lon : Q) : City.t Q :=
  {| City.id := Number_toString lat +:+ "-" +:+ Number_toString lon +:+ "-0";
     City.name := name;
     City.country := country;
     City.state := EmptyString;
     City.lat := lat;
     City.lon := lon;
     City.displayName := name +:+ ", " +:+ country;
     City.isCurrentLocation := None;
     City.addedAt := None |}.

Definition london : City.t Q := place "London" "GB" (515 # 10) (-12 # 100).
Definition paris : City.t Q := place "Paris" "FR" (4885 # 100) (235 # 100).
Definition tokyo : City.t Q := place "Tokyo" "JP" (3568 # 100) (13969 # 100).
Definition lagos : City.t Q := place "Lagos" "NG" (645 # 100) (339 # 100).
Definition lima : City.t Q := place "Lima" "PE" (-1205 # 100) (-7704 # 100).
Definition oslo : City.t Q := place "Oslo" "NO" (5991 # 100) (1075 # 100).
Definition rome : City.t Q := place "Rome" "IT" (419 # 10) (125 # 10).

Definition three_cities : list (value Q) := [VCity london; VCity paris; VCity tokyo].

Definition six_cities : list (value Q) :=
  [VCity london; VCity paris; VCity tokyo; VCity lagos; VCity lima; VCity oslo].

(* a clock that stands still, and one that advances by a millisecond
   after its second reading *)
Definition frozen : nat → Z := λ _, 1717200000000%Z.
Definition ticking : nat → Z :=
  λ k, if k <? 2 then 1717200000000%Z else 1717200000001%Z.

Definition ids {N} (cs : list (value N)) : list (option string) :=
  (λ v, match v with VCity c => Some (City.id c) | _ => None end) <$> cs.

(** ** composables/useCities.js: the reads *)

Module CityReads.
Section CityReads.

Context {N : Type} `{Number N} `{Show N} `{Host}.

(* cs.filter(city => selected.includes(city.id)) *)
Fixpoint filter_selected (selected : list string) (cs : list (value N))
    : option (list (value N)) :=
  match cs with
  | [] => Some []
  | VCity c :: rest =>
      rest' ← filter_selected selected rest;
      Some (if bool_decide (City.id c ∈ selected) then VCity c :: rest' else rest')
  | _ :: _ => None
  end.

(* cs.find(city => city.id === cityId) *)
Fixpoint find_id (cityId : string) (cs : list (value N))
    : option (option (City.t N)) :=
  match cs with
  | [] => Some None
  | VCity c :: rest =>
      if String.eqb (City.id c) cityId then Some (Some c) else find_id cityId rest
  | _ :: _ => None
  end.

Definition cityCount : Js N nat :=
  let* cs := get_cities in
  ret (length cs).

Definition hasCities : Js N bool :=
  let* cs := get_cities in
  ret (0 <? length cs).

Definition getSelectedCityObjects : Js N (list (value N)) :=
  let* cs := get_cities in
  let* selected := get_selectedCities in
  or_throw (filter_selected selected cs).

Definition getCityById (cityId : string) : Js N (option (City.t N)) :=
  let* cs := get_cities in
  or_throw (find_id cityId cs).

End CityReads.
End CityReads.

(** The test of [getSelectedCityObjects] on a city. *)
Definition selected_by {N} (selected : list string) (v : value N) : Prop :=
  match v with VCity c => City.id c ∈ selected | _ => False end.

#[global] Instance selected_by_dec {N} (selected : list string) (v : value N) :
  Decision (selected_by selected v).
Proof. destruct v; simpl; apply _. Defined.

(** The state in which a call ends, whether it returns or throws. *)
Definition state_after {N A} (o : outcome N A) : World N :=
  match o with Returns _ w => w | Throws w => w end.

(** No city of the array is at the place of one before it, as [addCity]
    compares places: the new city against each city already there. *)
Fixpoint distinct_places {N : Type} `{Number N} (cs : list (value N)) : Prop :=
  match cs with
  | [] => True
  | VCity c :: rest =>
      (∀ c', VCity c' ∈ rest → same_place c' c = false) ∧ distinct_places rest
  | _ :: rest => distinct_places rest
  end.

(** Every selected id is the id of a city of the array. *)
Definition selection_within {N} (w : World N) : Prop :=
  ∀ id, id ∈ selectedCities w → ∃ c, VCity c ∈ cities w ∧ City.id c = id.

(** ** utils/storage.js: preferences, layout, search history, backup *)

(** The values of the properties of a preferences or layout object, as
    JSON has them. *)
Module Json.
Inductive t (N : Type) :=
  | Null
  | Bool (b : bool)
  | Number (n : N)
  | String (s : string).
Arguments Null {N}.
Arguments Bool {N} b.
Arguments Number {N} n.
Arguments String {N} s.
End Json.

(** An object a caller passes: a property is absent, or present with the
    value [undefined] (None) or with a JSON value.  An object that comes
    out of [JSON.parse] has no [undefined] property. *)
Abbreviation object N := (gmap string (option (Json.t N))).
Abbreviation parsed N := (gmap string (Json.t N)).

(* { ...a, ...b }: the properties of b, then those of a that b lacks *)
Definition spread {V} (a b : gmap string V) : gmap string V := b ∪ a.

(* JSON.parse (JSON.stringify o): a property whose value is undefined is
   left out *)
Definition JSON_object {N} (o : object N) : parsed N := omap id o.

(** An entry of local storage: absent, the JSON text of a value, or a text
    from which the getter does not get a value ([JSON.parse] throws on it,
    or it is empty). *)
Inductive entry (A : Type) :=
  | Absent
  | Text (a : A)
  | Unparsable.
Arguments Absent {A}.
Arguments Text {A} a.
Arguments Unparsable {A}.

(** An item of the search history: { ...city, searchedAt }. *)
Module Search.
Record t {N : Type} := {
  city : City.t N;
  searchedAt : string
}.
Arguments t : clear implicits.
End Search.

(** The entries under [STORAGE_KEYS.PREFERENCES], [LAYOUT] and
    [SEARCH_HISTORY]; the entry under [CITIES] is in the [World].  A text
    that parses is one this module wrote: an object of JSON values for the
    preferences and the layout, an array of items for the history.  Writes
    succeed, and numbers are finite: they come back from JSON as they
    were. *)
Record Disk {N : Type} := {
  preferences : entry (parsed N);
  layout : entry (parsed N);
  searchHistory : entry (list (Search.t N))
}.
Arguments Disk : clear implicits.

(** The object [exportData] returns and [importData] takes: a property is
    absent or holds an array or an object. *)
Module Backup.
Record t {N : Type} := {
  cities : option (list (value N));
  preferences : option (object N);
  layout : option (object N);
  searchHistory : option (list (Search.t N));
  exportedAt : option string
}.
Arguments t : clear implicits.
End Backup.

(* localStorage.removeItem(STORAGE_KEYS.CITIES) *)
Definition localStorage_removeItem {N} : Js N unit :=
  λ w, Returns tt
    {| cities := cities w; selectedCities := selectedCities w;
       localStorage := None; clock := clock w; reads := reads w |}.

Module Settings.
Section Settings.

Context {N : Type} `{Number N} `{Show N} `{Host}.

Definition DEFAULT_PREFERENCES : parsed N :=
  list_to_map
    [ ("temperatureUnit", Json.String "celsius");
      ("theme", Json.String "dark");
      ("autoRefresh", Json.Bool true);
      ("refreshInterval", Json.Number (nlit 300000));
      ("showAlerts", Json.Bool true) ].

Definition getPreferences (d : Disk N) : parsed N :=
  match preferences d with
  | Text prefs => spread DEFAULT_PREFERENCES prefs
  | Absent | Unparsable => DEFAULT_PREFERENCES
  end.

Definition savePreferences (prefs : object N) (d : Disk N) : Disk N :=
  let currentPrefs := getPreferences d in
  let updatedPrefs := spread (Some <$> currentPrefs) prefs in
  {| preferences := Text (JSON_object updatedPrefs);
     layout := layout d;
     searchHistory := searchHistory d |}.

Definition default_layout : parsed N :=
  list_to_map [ ("columns", Json.Number (nlit 3));
                ("cardSize", Json.String "medium") ].

Definition getLayoutConfig (d : Disk N) : parsed N :=
  match layout d with
  | Text l => l
  | Absent | Unparsable => default_layout
  end.

Definition saveLayoutConfig (l : object N) (d : Disk N) : Disk N :=
  {| preferences := preferences d;
     layout := Text (JSON_object l);
     searchHistory := searchHistory d |}.

Definition getSearchHistory (d : Disk N) : list (Search.t N) :=
  match searchHistory d with
  | Text history => history
  | Absent | Unparsable => []
  end.

Definition set_searchHistory (e : entry (list (Search.t N))) (d : Disk N)
    : Disk N :=
  {| preferences := preferences d; layout := layout d; searchHistory := e |}.

Definition addToSearchHistory (city : City.t N) (d : Disk N) : Js N (Disk N) :=
  let history := getSearchHistory d in
  let history :=
    filter (λ item, same_place city (Search.city item) = false) history in
  let* today := Date_now in
  let history :=
    {| Search.city := city; Search.searchedAt := toISOString today |} :: history in
  let history := take 10 history in
  ret (set_searchHistory (Text history) d).

Definition clearSearchHistory (d : Disk N) : Disk N :=
  set_searchHistory Absent d.

Definition clearAllData (d : Disk N) : Js N (Disk N) :=
  localStorage_removeItem ;;;
  ret {| preferences := Absent; layout := Absent; searchHistory := Absent |}.

Definition exportData (d : Disk N) : Js N (Backup.t N) :=
  let* cities := Storage.getSavedCities in
  let* today := Date_now in
  ret {| Backup.cities := Some cities;
         Backup.preferences := Some (Some <$> getPreferences d);
         Backup.layout := Some (Some <$> getLayoutConfig d);
         Backup.searchHistory := Some (getSearchHistory d);
         Backup.exportedAt := Some (toISOString today) |}.

Definition importData (data : Backup.t N) (d : Disk N) : Js N (Disk N) :=
  match Backup.cities data with
  | Some cities => Storage.saveCities cities
  | None => ret tt
  end ;;;
  let d := match Backup.preferences data with
           | Some prefs => savePreferences prefs d
           | None => d
           end in
  let d := match Backup.layout data with
           | Some l => saveLayoutConfig l d
           | None => d
           end in
  let d := match Backup.searchHistory data with
           | Some history => set_searchHistory (Text history) d
           | None => d
           end in
  ret d.

End Settings.
End Settings.

(** No item of the history is at the place of a later (older) one, as
    [addToSearchHistory] compares places: the city searched against each
    item already there. *)
Fixpoint distinct_searches {N : Type} `{Number N} (history : list (Search.t N))
    : Prop :=
  match history with
  | [] => True
  | item :: rest =>
      (∀ older, older ∈ rest →
                same_place (Search.city item) (Search.city older) = false) ∧
      distinct_searches rest
  end.

(** ** utils/helpers.js: wind direction and elapsed time *)

(** What [toLocaleDateString('en-US', options)] gives for a time value,
    the options being named by their key in [formatDate]. *)
Class Intl := {
  toLocaleDateString : string → Z → string
}.

Definition directions : list string :=
  ["N"; "NNE"; "NE"; "ENE"; "E"; "ESE"; "SE"; "SSE";
   "S"; "SSW"; "SW"; "WSW"; "W"; "WNW"; "NW"; "NNW"].

(** Over the rationals.  [%] is the remainder of the truncated division,
    with the sign of the dividend; an index below zero names no element of
    the array, and the result is [undefined] (None). *)
Definition getWindDirection (deg : Q) : option string :=
  let index := Z.rem (Qfloor (Math_round (deg / (225 # 10))%Q)) 16 in
  if (index <? 0)%Z then None else directions !! Z.to_nat index.

Section Elapsed.

Context {N : Type} `{Intl}.

(* the keys of the options of formatDate; keys inherited from
   Object.prototype are not modelled *)
Definition formats : list string :=
  ["full"; "short"; "time"; "day"; "dayFull"; "month"; "monthShort"].

Definition formatDate (date : Z) (format : string) : string :=
  toLocaleDateString (if bool_decide (format ∈ formats) then format else "full")
    date.

(** [date] is the time value of the date given, a valid date; the
    differences are integers, and [Math.floor] of their quotients is
    [Z.div]. *)
Definition getRelativeTime (date : Z) : Js N string :=
  let* now := Date_now in
  let past := date in
  let diffMs := (now - past)%Z in
  let diffSecs := (diffMs / 1000)%Z in
  let diffMins := (diffSecs / 60)%Z in
  let diffHours := (diffMins / 60)%Z in
  let diffDays := (diffHours / 24)%Z in
  if (diffSecs <? 60)%Z then ret "Just now"
  else if (diffMins <? 60)%Z then
    ret (pretty diffMins +:+ " minute"
         +:+ (if (1 <? diffMins)%Z then "s" else EmptyString) +:+ " ago")
  else if (diffHours <? 24)%Z then
    ret (pretty diffHours +:+ " hour"
         +:+ (if (1 <? diffHours)%Z then "s" else EmptyString) +:+ " ago")
  else if (diffDays <? 7)%Z then
    ret (pretty diffDays +:+ " day"
         +:+ (if (1 <? diffDays)%Z then "s" else EmptyString) +:+ " ago")
  else ret (formatDate date "short").

End Elapsed.

(** ** composables/useWeather.js *)

Section UseWeather.

Context {N : Type} `{Number N} `{Host}.

(** [forecast] is [forecast.value?.list]: None when there is no forecast
    or it has no list. *)
Definition dailyForecast (forecast : option (list (Item.t N))) (unit : string)
    : list (Summary.t N) :=
  match forecast with
  | None => []
  | Some list =>
      let processed := processForecastData list in
      if String.eqb unit "fahrenheit" then
        (λ day,
           {| Summary.date := Summary.date day;
              Summary.tempMin :=
                convertTemperature (Summary.tempMin day) "celsius" "fahrenheit";
              Summary.tempMax :=
                convertTemperature (Summary.tempMax day) "celsius" "fahrenheit";
              Summary.tempAvg :=
                convertTemperature (Summary.tempAvg day) "celsius" "fahrenheit";
              Summary.condition := Summary.condition day;
              Summary.humidity := Summary.humidity day;
              Summary.wind := Summary.wind day;
              Summary.icon := Summary.icon day |}) <$> processed
      else processed
  end.

End UseWeather.

(** A forecast in which every temperature has been converted to
    fahrenheit, and two summaries that agree but for the representation of
    their temperatures as fractions. *)
Definition in_fahrenheit (item : Item.t Q) : Item.t Q :=
  {| Item.dt := Item.dt item;
     Item.main_temp := convertTemperature (Item.main_temp item) "celsius" "fahrenheit";
     Item.main_humidity := Item.main_humidity item;
     Item.wind_speed := Item.wind_speed item;
     Item.weather_main := Item.weather_main item;
     Item.weather_icon := Item.weather_icon item |}.

Definition same_summary (s s' : Summary.t Q) : Prop :=
  Summary.date s = Summary.date s' ∧
  (Summary.tempMin s == Summary.tempMin s')%Q ∧
  (Summary.tempMax s == Summary.tempMax s')%Q ∧
  (Summary.tempAvg s == Summary.tempAvg s')%Q ∧
  Summary.condition s = Summary.condition s' ∧
  Summary.humidity s = Summary.humidity s' ∧
  Summary.wind s = Summary.wind s' ∧
  Summary.icon s = Summary.icon s'.

(** A host that writes the short form of a date as its time value. *)
Definition plain_intl : Intl := {| toLocaleDateString := λ _ ms, pretty ms |}.

(** Six days of forecasts at noon, the first of them 1 June 2024. *)
Definition six_days : list (Item.t Q) :=
  [ sample 12 20%Q "Clear" "01d"; sample 36 21%Q "Clouds" "03d";
    sample 60 19%Q "Rain" "10d"; sample 84 22%Q "Clear" "01d";
    sample 108 23%Q "Clear" "01d"; sample 132 18%Q "Rain" "10d" ].

(** A sample of the other entries: a light theme, and London and Paris in
    the search history, Paris searched last. *)
Definition sample_disk : Disk Q :=
  {| preferences := Text {[ "theme" := Json.String "light" ]};
     layout := Absent;
     searchHistory :=
       Text [ {| Search.city := paris;
                 Search.searchedAt := "2024-06-01T00:00:00.000Z" |};
              {| Search.city := london;
                 Search.searchedAt := "2024-05-31T00:00:00.000Z" |} ] |}.

(** * Properties *)

(** ** Unit conversion *)

Lemma convertTemperature_same_unit {N : Type} `{Number N} (x : N) (u : string) :
  convertTemperature x u u = x.
Proof. unfold convertTemperature. by rewrite String.eqb_refl. Qed.

Lemma convertTemperature_other_pairing {N : Type} `{Number N}
    (x : N) (from to : string) :
  ¬ (from = "celsius" ∧ to = "fahrenheit") →
  ¬ (from = "fahrenheit" ∧ to = "celsius") →
  convertTemperature x from to = x.
Proof.
  intros Hcf Hfc. unfold convertTemperature.
  destruct (String.eqb from to); [done|].
  destruct (String.eqb_spec from "celsius"), (String.eqb_spec to "fahrenheit");
    simpl; try tauto;
  destruct (String.eqb_spec from "fahrenheit"), (String.eqb_spec to "celsius");
    simpl; tauto.
Qed.

Lemma celsius_to_fahrenheit {N : Type} `{Number N} (x : N) :
  convertTemperature x "celsius" "fahrenheit" = (x * nlit 9 / nlit 5 + nlit 32)%js.
Proof. reflexivity. Qed.

Lemma fahrenheit_to_celsius {N : Type} `{Number N} (x : N) :
  convertTemperature x "fahrenheit" "celsius" = ((x - nlit 32) * nlit 5 / nlit 9)%js.
Proof. reflexivity. Qed.

Lemma round_trip_exact (x : Q) :
  (convertTemperature (convertTemperature x "celsius" "fahrenheit")
     "fahrenheit" "celsius" == x)%Q.
Proof.
  rewrite celsius_to_fahrenheit, fahrenheit_to_celsius. simpl.
  change (inject_Z 9) with 9%Q. change (inject_Z 5) with 5%Q.
  change (inject_Z 32) with 32%Q. field.
Qed.

(** C6: [convertTemperature] returns its argument when the two units are
    equal and for every pairing other than celsius-to-fahrenheit and
    fahrenheit-to-celsius, whatever the arithmetic; converting to
    fahrenheit and back recovers the argument exactly when the arithmetic is
    that of the rationals.  (The tolerance the specification gives for
    binary64 bounds a rounding error, which grows with the magnitude of the
    argument; it is not part of this statement.) *)
Theorem convertTemperature_laws :
  (∀ (N : Type) (num : Number N) (x : N) (u : string),
      convertTemperature x u u = x) ∧
  (∀ (N : Type) (num : Number N) (x : N) (from to : string),
      ¬ (from = "celsius" ∧ to = "fahrenheit") →
      ¬ (from = "fahrenheit" ∧ to = "celsius") →
      convertTemperature x from to = x) ∧
  (∀ x : Q,
      (convertTemperature (convertTemperature x "celsius" "fahrenheit")
         "fahrenheit" "celsius" == x)%Q).
Proof.
  split; [|split].
  - intros. apply convertTemperature_same_unit.
  - intros. by apply convertTemperature_other_pairing.
  - apply round_trip_exact.
Qed.

Lemma convertTemperature_laws_witness :
  convertTemperature (366 # 10)%Q "fahrenheit" "fahrenheit" = (366 # 10)%Q ∧
  convertTemperature (366 # 10)%Q "kelvin" "celsius" = (366 # 10)%Q ∧
  (convertTemperature (convertTemperature (366 # 10)%Q "celsius" "fahrenheit")
     "fahrenheit" "celsius" == 366 # 10)%Q.
Proof.
  destruct convertTemperature_laws as (Hsame & Hother & Hround).
  split; [apply Hsame|]. split; [|apply Hround].
  apply Hother; intros [Hfrom Hto]; discriminate.
Defined.

(** C6, as the specification words it, fails in the arithmetic of the
    engine: converted to fahrenheit and back in binary64, 123456789.1 comes
    back as 123456789.09999998, off by more than the tolerance 1e-9, and
    1e308 comes back as Infinity, the multiplication by 9 overflowing.  The
    round trip is within 1e-9 of its argument for no more than a range of
    inputs. *)
Lemma binary64_round_trip_beyond_tolerance :
  let back (x : float) :=
    convertTemperature (convertTemperature x "celsius" "fahrenheit")
      "fahrenheit" "celsius" in
  back 123456789.1%float = 123456789.09999998%float ∧
  PrimFloat.ltb 1e-9%float
    (PrimFloat.abs (PrimFloat.sub (back 123456789.1%float) 123456789.1%float))
  = true ∧
  back 1e308%float = infinity ∧
  ¬ (∀ x : float,
       PrimFloat.leb (PrimFloat.abs (PrimFloat.sub (back x) x)) 1e-9%float
       = true).
Proof.
  cbv zeta. split; [by vm_compute|]. split; [by vm_compute|].
  split; [by vm_compute|].
  intros Hall. specialize (Hall 123456789.1%float).
  vm_compute in Hall. discriminate Hall.
Qed.

(** ** Frequencies *)

Lemma occurrences_nil x : occurrences x [] = 0.
Proof. reflexivity. Qed.

Lemma occurrences_app x arr1 arr2 :
  occurrences x (arr1 ++ arr2) = occurrences x arr1 + occurrences x arr2.
Proof. unfold occurrences. by rewrite filter_app, length_app. Qed.

Lemma occurrences_cons x y arr :
  occurrences x (y :: arr) = (if decide (y = x) then 1 else 0) + occurrences x arr.
Proof.
  unfold occurrences. rewrite filter_cons. by destruct (decide (y = x)).
Qed.

Lemma occurrences_snoc x y arr :
  occurrences x (arr ++ [y]) = occurrences x arr + (if decide (y = x) then 1 else 0).
Proof.
  rewrite occurrences_app, occurrences_cons, occurrences_nil. lia.
Qed.

Lemma occurrences_none x arr : occurrences x arr = 0 ↔ x ∉ arr.
Proof.
  induction arr as [|y arr IH]; [by split; [intros _; apply not_elem_of_nil|]|].
  rewrite occurrences_cons, not_elem_of_cons.
  destruct (decide (y = x)) as [->|Hne]; [split; [lia|tauto]|].
  simpl. rewrite IH. split; [by split|tauto].
Qed.

Lemma filter_all {A} (P : A → Prop) `{∀ x, Decision (P x)} (l : list A) :
  (∀ x, x ∈ l → P x) → filter P l = l.
Proof.
  induction l as [|x l IH]; intros Hall; [done|].
  rewrite filter_cons_True by apply Hall, list_elem_of_here.
  rewrite IH; [done|]. intros y Hy. by apply Hall, list_elem_of_further.
Qed.

(** ** The scan of [getMostFrequent] *)

Lemma scanned_start (o : option string) : scanned o [] (∅, 0, o).
Proof.
  split; [|split; [|split; [|split]]]; try done.
  intros y _. left. split; [apply lookup_empty|done].
Qed.

(* an element that is not a name of Object.prototype is counted *)
Lemma count_item_counted counts maxCount maxItem item (k : nat) :
  item ∉ Object_prototype →
  (counts !! item = None ∧ k = 0) ∨ counts !! item = Some (Counted k) →
  count_item (counts, maxCount, maxItem) item
  = if maxCount <? k + 1
    then (<[item := Counted (k + 1)]> counts, k + 1, Some item)
    else (<[item := Counted (k + 1)]> counts, maxCount, maxItem).
Proof.
  intros Hitem Hk. unfold count_item, counts_get, counts_set.
  assert (Hproto : String.eqb item "__proto__" = false).
  { apply String.eqb_neq. intros ->. apply Hitem.
    apply (bool_decide_unpack _). reflexivity. }
  rewrite Hproto.
  destruct Hk as [[-> ->]| ->].
  - rewrite bool_decide_eq_false_2 by done. by rewrite lookup_insert_eq.
  - by rewrite lookup_insert_eq.
Qed.

(* a name of Object.prototype is not: neither maxCount nor maxItem changes,
   and no number is stored *)
Lemma count_item_inherited counts maxCount maxItem item :
  item ∈ Object_prototype →
  (∀ n, counts !! item ≠ Some (Counted n)) →
  ∃ counts',
    count_item (counts, maxCount, maxItem) item = (counts', maxCount, maxItem) ∧
    (∀ y, y ≠ item → counts' !! y = counts !! y) ∧
    (∀ n, counts' !! item ≠ Some (Counted n)).
Proof.
  intros Hitem Hnone. unfold count_item.
  assert (Hget : counts_get counts item = Some NotANumber).
  { unfold counts_get. destruct (counts !! item) as [[n|]|] eqn:Hc.
    - by destruct (Hnone n).
    - done.
    - by rewrite bool_decide_eq_true_2. }
  rewrite Hget. unfold counts_set.
  destruct (String.eqb item "__proto__").
  - rewrite Hget. by exists counts.
  - unfold counts_get. rewrite lookup_insert_eq.
    exists (<[item := NotANumber]> counts). split; [done|]. split.
    + intros y Hy. by rewrite lookup_insert_ne.
    + intros n. by rewrite lookup_insert_eq.
Qed.

Lemma scanned_step start seen st item :
  item ∉ Object_prototype →
  scanned start seen st → scanned start (seen ++ [item]) (count_item st item).
Proof.
  destruct st as [[counts maxCount] maxItem].
  intros Hitem (Hcounts & Hproto & Hmax & Hnil & Hseen).
  rewrite (count_item_counted _ _ _ _ (occurrences item seen)); [|done|].
  2:{ destruct (Hcounts item Hitem) as [[? ?]|?]; [left|right]; done. }
  assert (Hcounts' : ∀ y, y ∉ Object_prototype →
    (<[item:=Counted (occurrences item seen + 1)]> counts !! y = None
     ∧ occurrences y (seen ++ [item]) = 0)
    ∨ <[item:=Counted (occurrences item seen + 1)]> counts !! y
      = Some (Counted (occurrences y (seen ++ [item])))).
  { intros y Hy. rewrite occurrences_snoc.
    destruct (decide (item = y)) as [->|Hne].
    - right. by rewrite lookup_insert_eq.
    - rewrite lookup_insert_ne, Nat.add_0_r by done. by apply Hcounts. }
  assert (Hproto' : ∀ y n, y ∈ Object_prototype →
    <[item:=Counted (occurrences item seen + 1)]> counts !! y ≠ Some (Counted n)).
  { intros y n Hy. rewrite lookup_insert_ne by (intros ->; done).
    by apply Hproto. }
  destruct (Nat.ltb_spec maxCount (occurrences item seen + 1)) as [Hlt|Hge].
  - split; [exact Hcounts'|]. split; [exact Hproto'|]. split; [|split].
    + intros y. rewrite occurrences_snoc. specialize (Hmax y).
      destruct (decide (item = y)) as [->|]; lia.
    + intros Heq. by destruct seen.
    + intros _. exists item. split; [done|]. exists seen, [].
      split; [done|]. split.
      * rewrite occurrences_snoc. by rewrite decide_True.
      * intros y. specialize (Hmax y). lia.
  - split; [exact Hcounts'|]. split; [exact Hproto'|]. split; [|split].
    + intros y. rewrite occurrences_snoc. specialize (Hmax y).
      destruct (decide (item = y)) as [->|]; lia.
    + intros Heq. by destruct seen.
    + intros _. destruct seen as [|s seen'] eqn:Hs.
      { destruct (Hnil eq_refl) as [Hzero _]. lia. }
      destruct Hseen as (x & Hx & pre & post & Hsplit & Hcount & Hpre); [done|].
      exists x. split; [done|]. exists pre, (post ++ [item]).
      split; [|done]. rewrite Hsplit. by rewrite <- app_assoc.
Qed.

Lemma scanned_skip start seen st item :
  item ∈ Object_prototype →
  scanned start seen st → scanned start seen (count_item st item).
Proof.
  destruct st as [[counts maxCount] maxItem].
  intros Hitem (Hcounts & Hproto & Hmax & Hnil & Hseen).
  destruct (count_item_inherited counts maxCount maxItem item Hitem)
    as (counts' & -> & Hother & Hsame).
  { intros n. by apply Hproto. }
  split; [|split; [|done]].
  - intros y Hy. rewrite Hother by (intros ->; done). by apply Hcounts.
  - intros y n Hy. destruct (decide (y = item)) as [->|Hne]; [apply Hsame|].
    rewrite Hother by done. by apply Hproto.
Qed.

Lemma counted_snoc arr item :
  counted (arr ++ [item])
  = counted arr ++ (if decide (item ∈ Object_prototype) then [] else [item]).
Proof.
  unfold counted. rewrite filter_app, filter_cons, filter_nil.
  by destruct (decide (item ∈ Object_prototype));
    [rewrite decide_False by tauto|rewrite decide_True by done].
Qed.

Lemma scanned_fold start rest : ∀ seen st,
  scanned start seen st →
  scanned start (seen ++ counted rest) (fold_left count_item rest st).
Proof.
  induction rest as [|item rest IH]; intros seen st Hst; simpl.
  - by rewrite app_nil_r.
  - unfold counted. rewrite filter_cons. fold (counted rest).
    destruct (decide (item ∉ Object_prototype)) as [Hitem|Hitem].
    + replace (seen ++ item :: counted rest) with ((seen ++ [item]) ++ counted rest)
        by (by rewrite <- app_assoc).
      apply IH. by apply scanned_step.
    + apply IH, scanned_skip; [|done]. by apply dec_stable.
Qed.

Lemma getMostFrequent_scanned arr :
  ∃ counts maxCount,
    scanned (head arr) (counted arr) (counts, maxCount, getMostFrequent arr).
Proof.
  unfold getMostFrequent.
  pose proof (scanned_fold (head arr) arr [] _ (scanned_start (head arr))) as Hscan.
  simpl in Hscan.
  destruct (fold_left count_item arr (∅, 0, head arr)) as [[counts maxCount] maxItem].
  by exists counts, maxCount.
Qed.

(* the result is an element of the array, whatever its elements are *)
Lemma getMostFrequent_element arr :
  arr ≠ [] → ∃ x, getMostFrequent arr = Some x ∧ x ∈ arr.
Proof.
  intros Hne.
  destruct (getMostFrequent_scanned arr) as (counts & maxCount & Hscan).
  destruct Hscan as (_ & _ & _ & Hnil & Hseen).
  destruct (counted arr) as [|c cs] eqn:Hcounted.
  - destruct (Hnil eq_refl) as [_ ->]. destruct arr as [|x arr]; [done|].
    exists x. split; [done|apply list_elem_of_here].
  - destruct Hseen as (x & Hx & pre & post & Hsplit & _); [done|].
    exists x. split; [done|].
    assert (Hin : x ∈ counted arr).
    { rewrite Hcounted, Hsplit. apply elem_of_app. right. apply list_elem_of_here. }
    unfold counted in Hin. by apply list_elem_of_filter in Hin as [_ ?].
Qed.

(** C3, as the code has it.  The scan counts the elements of the array
    that are not names of properties of [Object.prototype] (no weather
    condition and no icon code is one; for an array without such a name
    the elements counted are the whole array).  When it counts one at
    least, [getMostFrequent] returns a counted element of maximum
    frequency, and among the elements of maximum frequency the one whose
    count reaches that maximum first, which is the one whose last
    occurrence comes earliest: every other element of maximum frequency
    occurs again after the last occurrence of the result.  When it counts
    none, the result is the first element of the array. *)
Theorem getMostFrequent_reaches_maximum_first (arr : list string) :
  (counted arr ≠ [] →
   ∃ x pre post,
     getMostFrequent arr = Some x ∧
     counted arr = pre ++ x :: post ∧
     (x ∉ post) ∧
     (∀ y, occurrences y (counted arr) ≤ occurrences x (counted arr)) ∧
     (∀ y, y ≠ x →
           occurrences y (counted arr) = occurrences x (counted arr) →
           y ∈ post)) ∧
  (counted arr = [] → getMostFrequent arr = head arr) ∧
  (Forall (λ x, x ∉ Object_prototype) arr → counted arr = arr).
Proof.
  destruct (getMostFrequent_scanned arr) as (counts & maxCount & Hscan).
  destruct Hscan as (_ & _ & Hmax & Hnil & Hitem).
  split; [|split].
  - intros Hne.
    destruct (Hitem Hne) as (x & Hx & pre & post & Hsplit & Hcount & Hpre).
    assert (Hxmax : occurrences x (counted arr) = maxCount ∧ occurrences x post = 0).
    { pose proof (Hmax x) as Hle. rewrite Hsplit in Hle |- *.
      replace (pre ++ x :: post) with ((pre ++ [x]) ++ post) in Hle |- *
        by (by rewrite <- app_assoc).
      rewrite occurrences_app in Hle |- *. lia. }
    destruct Hxmax as [Hxmax Hpost].
    exists x, pre, post. split; [done|]. split; [done|].
    split; [by apply occurrences_none|]. split.
    + intros y. rewrite Hxmax. apply Hmax.
    + intros y Hyx Hy. apply dec_stable. intros Hnot.
      apply occurrences_none in Hnot. specialize (Hpre y).
      rewrite Hxmax, Hsplit, occurrences_app, occurrences_cons in Hy.
      rewrite decide_False in Hy by done. lia.
  - intros Hnone. by destruct (Hnil Hnone) as [_ ->].
  - intros Hall. apply filter_all. by apply Forall_forall.
Qed.

Lemma getMostFrequent_reaches_maximum_first_witness :
  ∃ x pre post,
    getMostFrequent ["Rain"; "Clear"; "Clear"; "Rain"] = Some x ∧
    ["Rain"; "Clear"; "Clear"; "Rain"] = pre ++ x :: post ∧
    (x ∉ post) ∧
    (∀ y, occurrences y ["Rain"; "Clear"; "Clear"; "Rain"]
          ≤ occurrences x ["Rain"; "Clear"; "Clear"; "Rain"]) ∧
    (∀ y, y ≠ x →
          occurrences y ["Rain"; "Clear"; "Clear"; "Rain"]
          = occurrences x ["Rain"; "Clear"; "Clear"; "Rain"] →
          y ∈ post).
Proof.
  apply (proj1 (getMostFrequent_reaches_maximum_first
                  ["Rain"; "Clear"; "Clear"; "Rain"])).
  discriminate.
Defined.

(* a name of Object.prototype is not counted: constructor, twice in the
   array, loses to Clear *)
Example getMostFrequent_inherited_name :
  getMostFrequent ["constructor"; "constructor"; "Clear"] = Some "Clear" ∧
  getMostFrequent ["constructor"; "toString"] = Some "constructor".
Proof. split; by vm_compute. Qed.

(** C3, as the specification words it, fails: in Rain, Clear, Clear, Rain
    both conditions occur twice and Rain appears first, but Clear is the
    first to be counted twice and is returned. *)
Lemma getMostFrequent_not_first_seen :
  getMostFrequent ["Rain"; "Clear"; "Clear"; "Rain"] = Some "Clear" ∧
  ¬ first_seen_dominant ["Rain"; "Clear"; "Clear"; "Rain"] "Clear".
Proof.
  split; [by vm_compute|].
  intros [_ Hfirst]. specialize (Hfirst "Rain" eq_refl).
  vm_compute in Hfirst. by apply Hfirst.
Qed.

(** ** First-seen order *)

Lemma elem_of_first_seen_from seen keys k :
  k ∈ first_seen_from seen keys ↔ k ∈ keys ∧ k ∉ seen.
Proof.
  revert seen. induction keys as [|k' keys IH]; intros seen; simpl.
  - rewrite elem_of_nil. tauto.
  - destruct (decide (k' ∈ seen)) as [Hin|Hout].
    + rewrite IH, elem_of_cons. split; [tauto|].
      intros [[->|?] ?]; tauto.
    + rewrite !elem_of_cons, IH, not_elem_of_cons.
      destruct (decide (k = k')) as [->|Hne]; tauto.
Qed.

Lemma NoDup_first_seen_from seen keys : NoDup (first_seen_from seen keys).
Proof.
  revert seen. induction keys as [|k keys IH]; intros seen; simpl.
  - constructor.
  - destruct (decide (k ∈ seen)); [apply IH|].
    constructor; [|apply IH].
    rewrite elem_of_first_seen_from, not_elem_of_cons. tauto.
Qed.

Lemma first_seen_from_snoc seen keys k :
  first_seen_from seen (keys ++ [k])
  = first_seen_from seen keys
    ++ (if decide (k ∈ seen ∨ k ∈ keys) then [] else [k]).
Proof.
  revert seen. induction keys as [|k' keys IH]; intros seen; simpl.
  - destruct (decide (k ∈ seen)) as [Hin|Hout].
    + rewrite decide_True by tauto. done.
    + rewrite decide_False; [done|]. rewrite elem_of_nil. tauto.
  - destruct (decide (k' ∈ seen)) as [Hin|Hout].
    + rewrite IH. f_equal. apply decide_ext. rewrite elem_of_cons.
      split; [tauto|]. intros [?|[->|?]]; tauto.
    + rewrite IH. simpl. f_equal. f_equal. apply decide_ext.
      rewrite !elem_of_cons. tauto.
Qed.

Lemma elem_of_first_seen keys k : k ∈ first_seen keys ↔ k ∈ keys.
Proof.
  unfold first_seen. rewrite elem_of_first_seen_from, elem_of_nil. tauto.
Qed.

Lemma NoDup_first_seen keys : NoDup (first_seen keys).
Proof. apply NoDup_first_seen_from. Qed.

Lemma first_seen_snoc keys k :
  first_seen (keys ++ [k])
  = first_seen keys ++ (if decide (k ∈ keys) then [] else [k]).
Proof.
  unfold first_seen. rewrite first_seen_from_snoc. f_equal.
  apply decide_ext. rewrite elem_of_nil. tauto.
Qed.

(** ** Objects built key by key *)

Lemma Obj_get_fmap {V} (g : string → V) (ks : list string) (k : string) :
  Obj.get k ((λ k', (k', g k')) <$> ks)
  = if decide (k ∈ ks) then Some (g k) else None.
Proof.
  induction ks as [|k' ks IH]; [done|].
  rewrite fmap_cons. cbn [Obj.get].
  destruct (String.eqb_spec k' k) as [->|Hne].
  - rewrite decide_True; [done|]. apply elem_of_cons. tauto.
  - rewrite IH. apply decide_ext. rewrite elem_of_cons.
    split; [tauto|]. intros [->|?]; [done|tauto].
Qed.

Lemma Obj_update_fmap {V} (g : string → V) (f : V → V) (ks : list string) (k : string) :
  NoDup ks →
  Obj.update k f ((λ k', (k', g k')) <$> ks)
  = (λ k', (k', if decide (k' = k) then f (g k') else g k')) <$> ks.
Proof.
  induction 1 as [|k' ks Hk' Hnodup IH]; [done|].
  rewrite !fmap_cons. cbn [Obj.update].
  destruct (String.eqb_spec k' k) as [->|Hne].
  - rewrite decide_True by done. f_equal.
    apply list_fmap_ext. intros i k' Hi.
    rewrite decide_False; [done|]. intros ->.
    apply Hk'. by eapply list_elem_of_lookup_2.
  - rewrite decide_False by done. by rewrite IH.
Qed.

Lemma Obj_update_add {V} (g : string → V) (f : V → V) (ks : list string)
    (k : string) (v : V) :
  k ∉ ks →
  Obj.update k f (Obj.add k v ((λ k', (k', g k')) <$> ks))
  = ((λ k', (k', g k')) <$> ks) ++ [(k, f v)].
Proof.
  unfold Obj.add. induction ks as [|k' ks IH]; intros Hk.
  - simpl. by rewrite String.eqb_refl.
  - apply not_elem_of_cons in Hk as [Hne Hk].
    rewrite fmap_cons, <- !app_comm_cons. cbn [Obj.update].
    destruct (String.eqb_spec k' k) as [->|_]; [done|]. by rewrite IH.
Qed.

(** ** The grouping of [processForecastData] *)

Section GroupingProperties.

Context {N : Type} `{Number N} `{Host}.

Lemma samples_on_snoc date (forecastList : list (Item.t N)) item :
  samples_on date (forecastList ++ [item])
  = samples_on date forecastList
    ++ (if decide (date_of item = date) then [item] else []).
Proof.
  unfold samples_on. by rewrite filter_app.
Qed.

Lemma samples_on_nil date (forecastList : list (Item.t N)) :
  samples_on date forecastList = [] ↔ date ∉ date_of <$> forecastList.
Proof.
  unfold samples_on. induction forecastList as [|item l IH]; simpl.
  - split; [intros _; apply not_elem_of_nil|done].
  - rewrite filter_cons, not_elem_of_cons.
    destruct (decide (date_of item = date)) as [Heq|Hne].
    + split; [done|]. intros [Hne _]. by destruct Hne.
    + rewrite IH. split; [by split|tauto].
Qed.

Lemma day_of_snoc (items : list (Item.t N)) item :
  items ≠ [] → day_of (items ++ [item]) = push_item item (day_of items).
Proof.
  intros Hne. destruct items as [|first items]; [done|].
  unfold day_of, push_item. simpl. by rewrite !fmap_app.
Qed.

Lemma collect_grouped (forecastList : list (Item.t N)) item :
  collect (grouped forecastList) item = grouped (forecastList ++ [item]).
Proof.
  unfold collect, grouped. fold (date_of item).
  rewrite Obj_get_fmap, (fmap_app date_of).
  change (date_of <$> [item]) with [date_of item]. rewrite first_seen_snoc.
  destruct (decide (date_of item ∈ first_seen (date_of <$> forecastList)))
    as [Hin|Hout].
  - pose proof (proj1 (elem_of_first_seen _ _) Hin) as Hin'.
    rewrite (decide_True _ _ Hin'), app_nil_r.
    rewrite Obj_update_fmap by apply NoDup_first_seen.
    apply list_fmap_ext. intros i date _. f_equal.
    rewrite samples_on_snoc.
    destruct (decide (date = date_of item)) as [->|Hne].
    + rewrite decide_True by done. apply eq_sym, day_of_snoc.
      rewrite samples_on_nil. tauto.
    + rewrite decide_False by done. by rewrite app_nil_r.
  - assert (Hout' : date_of item ∉ date_of <$> forecastList)
      by (by rewrite <- elem_of_first_seen).
    rewrite (decide_False _ _ Hout'), fmap_app.
    rewrite Obj_update_add by done. f_equal.
    + apply list_fmap_ext. intros i date Hi. f_equal.
      rewrite samples_on_snoc, decide_False, app_nil_r; [done|].
      intros Heq. apply Hout. rewrite Heq. by eapply list_elem_of_lookup_2.
    + simpl. rewrite samples_on_snoc, decide_True by done.
      apply samples_on_nil in Hout' as ->. done.
Qed.

Lemma fold_collect_grouped (forecastList : list (Item.t N)) :
  fold_left collect forecastList [] = grouped forecastList.
Proof.
  induction forecastList as [|item l IH] using rev_ind; [done|].
  by rewrite fold_left_app, IH, <- collect_grouped.
Qed.

Lemma samples_on_first_seen date (forecastList : list (Item.t N)) :
  date ∈ first_seen (date_of <$> forecastList) →
  ∃ item items,
    samples_on date forecastList = item :: items ∧ date_of item = date.
Proof.
  rewrite elem_of_first_seen. intros Hin.
  destruct (samples_on date forecastList) as [|item items] eqn:Hs.
  - by apply samples_on_nil in Hs.
  - exists item, items. split; [done|].
    assert (Hitem : item ∈ samples_on date forecastList)
      by (rewrite Hs; apply elem_of_cons; tauto).
    unfold samples_on in Hitem. by apply list_elem_of_filter in Hitem as [? _].
Qed.

(* no day of dailyData is without a sample *)
Lemma buckets_nonempty (forecastList : list (Item.t N)) date day :
  (date, day) ∈ fold_left collect forecastList [] → Day.temps day ≠ [].
Proof.
  rewrite fold_collect_grouped. unfold grouped.
  intros (date' & [= -> ->] & Hin)%list_elem_of_fmap.
  destruct (samples_on_first_seen _ _ Hin) as (item & items & -> & _). done.
Qed.

Lemma processForecastData_grouped (forecastList : list (Item.t N)) :
  processForecastData forecastList
  = take 5 ((λ date, summarise (day_of (samples_on date forecastList)))
              <$> first_seen (date_of <$> forecastList)).
Proof.
  unfold processForecastData. rewrite fold_collect_grouped.
  unfold Obj.values, grouped. by rewrite <- !list_fmap_compose.
Qed.

End GroupingProperties.

(** C2: [processForecastData] makes one summary for each distinct local
    calendar date of the input, from the samples of that date, in the order
    in which the dates are first met in the input, and keeps the first five;
    the date of each summary is that of its group; the empty list gives the
    empty list.  [first_seen] lists every date of the input once, and a
    date met at the end of a scan is appended to it exactly when it was not
    met before. *)
Theorem processForecastData_first_seen_order
    {N : Type} `{Number N} `{Host} (forecastList : list (Item.t N)) :
  processForecastData forecastList
  = take 5 ((λ date, summarise (day_of (samples_on date forecastList)))
              <$> first_seen (date_of <$> forecastList)) ∧
  (λ s, toDateString (Summary.date s)) <$> processForecastData forecastList
  = take 5 (first_seen (date_of <$> forecastList)) ∧
  NoDup (first_seen (date_of <$> forecastList)) ∧
  (∀ date, date ∈ first_seen (date_of <$> forecastList)
           ↔ date ∈ date_of <$> forecastList) ∧
  (∀ dates date,
     first_seen (dates ++ [date])
     = first_seen dates ++ (if decide (date ∈ dates) then [] else [date])) ∧
  processForecastData (@nil (Item.t N)) = [].
Proof.
  split; [apply processForecastData_grouped|].
  split; [|split; [apply NoDup_first_seen|split; [apply elem_of_first_seen|]]];
    [|split; [apply first_seen_snoc|done]].
  rewrite processForecastData_grouped, fmap_take, <- list_fmap_compose.
  f_equal. rewrite <- (list_fmap_id (first_seen _)) at 2.
  apply list_fmap_ext. intros i date Hi. simpl.
  apply list_elem_of_lookup_2 in Hi.
  by destruct (samples_on_first_seen _ _ Hi) as (item & items & -> & Hdate).
Qed.

Lemma processForecastData_length {N : Type} `{Number N} `{Host}
    (forecastList : list (Item.t N)) :
  length (processForecastData forecastList) ≤ 5 ∧
  length (processForecastData forecastList)
  ≤ length (first_seen (date_of <$> forecastList)).
Proof.
  rewrite processForecastData_grouped, length_take, length_fmap. lia.
Qed.

(* the order is that of first appearance, not that of the calendar, and a
   sixth date is dropped *)
Example processForecastData_unsorted :
  (λ s, toDateString (Summary.date s))
    <$> processForecastData (N:=Q)
          [ sample 24 20%Q "Rain" "10d"; sample 0 18%Q "Clear" "01n";
            sample 27 22%Q "Rain" "10d" ]
  = ["Sun Jun 02 2024"; "Sat Jun 01 2024"] ∧
  (λ s, toDateString (Summary.date s))
    <$> processForecastData (N:=Q)
          ((λ day, sample (24 * day) 20%Q "Clear" "01d") <$> [5; 0; 1; 2; 3; 4]%Z)
  = ["Thu Jun 06 2024"; "Sat Jun 01 2024"; "Sun Jun 02 2024";
     "Mon Jun 03 2024"; "Tue Jun 04 2024"].
Proof. split; reflexivity. Qed.

(** ** One day of samples *)

Lemma first_seen_from_seen date keys :
  Forall (λ k, k = date) keys → first_seen_from [date] keys = [].
Proof.
  induction 1 as [|k keys -> _ IH]; simpl; [done|].
  rewrite decide_True; [done|]. apply elem_of_cons. tauto.
Qed.

Lemma processForecastData_one_day {N : Type} `{Number N} `{Host}
    (forecastList : list (Item.t N)) date :
  forecastList ≠ [] →
  Forall (λ item, date_of item = date) forecastList →
  processForecastData forecastList = [summarise (day_of forecastList)].
Proof.
  intros Hne Hall. rewrite processForecastData_grouped.
  assert (Hkeys : first_seen (date_of <$> forecastList) = [date]).
  { destruct Hall as [|item l Hitem Hall]; [done|].
    unfold first_seen. simpl. rewrite Hitem. f_equal.
    apply first_seen_from_seen. by apply Forall_fmap. }
  rewrite Hkeys. simpl. do 3 f_equal. clear Hne Hkeys.
  unfold samples_on. induction Hall as [|item l Hitem Hall IH]; [done|].
  rewrite filter_cons, decide_True by done. by f_equal.
Qed.

Section EightSamples.

Context {N : Type} `{Number N} `{Host}.

Lemma one_day_summary (items : list (Item.t N)) date temps conditions :
  Forall (λ item, date_of item = date) items →
  Item.main_temp <$> items = temps →
  Item.weather_main <$> items = conditions →
  temps ≠ [] →
  ∃ s, processForecastData items = [s] ∧
       Summary.tempMin s = Math_min temps ∧
       Summary.tempMax s = Math_max temps ∧
       Summary.tempAvg s = (sum temps / nlit (Z.of_nat (length temps)))%js ∧
       Summary.condition s = getMostFrequent conditions.
Proof.
  intros Hall <- <- Hne. exists (summarise (day_of items)).
  split; [|done]. apply processForecastData_one_day with date; [|done].
  by intros ->.
Qed.

End EightSamples.

(** C8: eight samples of one calendar date with temperatures 18, 20, 22,
    24, 23, 21, 19, 17 and conditions Clear, Clear, Clouds, Clear, Rain,
    Clear, Clear, Clear give one summary, with tempMin 17, tempMax 24,
    tempAvg 20.5 and condition Clear: in binary64 arithmetic, and in exact
    arithmetic. *)
Theorem eight_samples_of_one_day (host : Host) (date : string) :
  (∀ items : list (Item.t float),
     Forall (λ item, date_of item = date) items →
     Item.main_temp <$> items = [18; 20; 22; 24; 23; 21; 19; 17]%float →
     Item.weather_main <$> items
     = ["Clear"; "Clear"; "Clouds"; "Clear"; "Rain"; "Clear"; "Clear"; "Clear"] →
     ∃ s, processForecastData items = [s] ∧
          Summary.tempMin s = 17%float ∧
          Summary.tempMax s = 24%float ∧
          Summary.tempAvg s = 20.5%float ∧
          Summary.condition s = Some "Clear") ∧
  (∀ items : list (Item.t Q),
     Forall (λ item, date_of item = date) items →
     Item.main_temp <$> items = [18; 20; 22; 24; 23; 21; 19; 17]%Q →
     Item.weather_main <$> items
     = ["Clear"; "Clear"; "Clouds"; "Clear"; "Rain"; "Clear"; "Clear"; "Clear"] →
     ∃ s, processForecastData items = [s] ∧
          Summary.tempMin s = 17%Q ∧
          Summary.tempMax s = 24%Q ∧
          (Summary.tempAvg s == 20.5)%Q ∧
          Summary.condition s = Some "Clear").
Proof.
  assert (Hcondition :
    getMostFrequent
      ["Clear"; "Clear"; "Clouds"; "Clear"; "Rain"; "Clear"; "Clear"; "Clear"]
    = Some "Clear") by (vm_compute; reflexivity).
  split; intros items Hall Htemps Hconds.
  - destruct (one_day_summary items date _ _ Hall Htemps Hconds)
      as (s & Hs & Hmin & Hmax & Havg & Hcond); [discriminate|].
    exists s. rewrite Hmin, Hmax, Havg, Hcond, Hcondition.
    split; [exact Hs|]. split; [vm_compute; reflexivity|].
    split; [vm_compute; reflexivity|]. split; [vm_compute; reflexivity|].
    reflexivity.
  - destruct (one_day_summary items date _ _ Hall Htemps Hconds)
      as (s & Hs & Hmin & Hmax & Havg & Hcond); [discriminate|].
    exists s. rewrite Hmin, Hmax, Havg, Hcond, Hcondition.
    split; [exact Hs|]. split; [vm_compute; reflexivity|].
    split; [vm_compute; reflexivity|]. split; [vm_compute; reflexivity|].
    reflexivity.
Qed.

Lemma eight_samples_of_one_day_witness :
  (∃ s, processForecastData (N:=float) june_first_2024 = [s] ∧
        Summary.tempMin s = 17%float ∧
        Summary.tempMax s = 24%float ∧
        Summary.tempAvg s = 20.5%float ∧
        Summary.condition s = Some "Clear") ∧
  (∃ s, processForecastData (N:=Q) june_first_2024 = [s] ∧
        Summary.tempMin s = 17%Q ∧
        Summary.tempMax s = 24%Q ∧
        (Summary.tempAvg s == 20.5)%Q ∧
        Summary.condition s = Some "Clear").
Proof.
  destruct (eight_samples_of_one_day Utc.host "Sat Jun 01 2024")
    as [Hbinary64 Hexact].
  split; [apply Hbinary64|apply Hexact];
    solve [reflexivity | repeat constructor].
Defined.

(** ** Minimum, maximum and mean in exact arithmetic *)

Lemma Exact_lt_spec (x y : Q) :
  if Exact.lt x y then (x < y)%Q else (y <= x)%Q.
Proof.
  unfold Exact.lt. destruct (Qle_bool y x) eqn:Hle; simpl.
  - by apply Qle_bool_iff.
  - apply Qnot_le_lt. intros Hyx. apply Qle_bool_iff in Hyx. congruence.
Qed.

Lemma Exact_min2_le (rest : list Q) : ∀ lowest,
  (fold_left Exact.min2 rest lowest <= lowest)%Q ∧
  Forall (λ x, (fold_left Exact.min2 rest lowest <= x)%Q) rest.
Proof.
  induction rest as [|x rest IH]; intros lowest; simpl.
  - split; [apply Qle_refl|constructor].
  - destruct (IH (Exact.min2 lowest x)) as [Hlow Hrest].
    assert (Hstep : (Exact.min2 lowest x <= lowest ∧ Exact.min2 lowest x <= x)%Q).
    { unfold Exact.min2. pose proof (Exact_lt_spec x lowest) as Hlt.
      destruct (Exact.lt x lowest); split;
        auto using Qle_refl, Qlt_le_weak. }
    destruct Hstep as [Hl Hx].
    split; [by eapply Qle_trans|].
    constructor; [by eapply Qle_trans|done].
Qed.

Lemma Exact_max2_ge (rest : list Q) : ∀ highest,
  (highest <= fold_left Exact.max2 rest highest)%Q ∧
  Forall (λ x, (x <= fold_left Exact.max2 rest highest)%Q) rest.
Proof.
  induction rest as [|x rest IH]; intros highest; simpl.
  - split; [apply Qle_refl|constructor].
  - destruct (IH (Exact.max2 highest x)) as [Hhigh Hrest].
    assert (Hstep : (highest <= Exact.max2 highest x ∧ x <= Exact.max2 highest x)%Q).
    { unfold Exact.max2. pose proof (Exact_lt_spec highest x) as Hlt.
      destruct (Exact.lt highest x); split;
        auto using Qle_refl, Qlt_le_weak. }
    destruct Hstep as [Hh Hx].
    split; [by eapply Qle_trans|].
    constructor; [by eapply Qle_trans|done].
Qed.

Lemma Exact_min_le (xs : list Q) :
  Forall (λ x, (Exact.min xs <= x)%Q) xs.
Proof.
  destruct xs as [|x rest]; [constructor|]. simpl.
  destruct (Exact_min2_le rest x). by constructor.
Qed.

Lemma Exact_max_ge (xs : list Q) :
  Forall (λ x, (x <= Exact.max xs)%Q) xs.
Proof.
  destruct xs as [|x rest]; [constructor|]. simpl.
  destruct (Exact_max2_ge rest x). by constructor.
Qed.

Lemma Exact_min2_in (rest : list Q) : ∀ lowest,
  fold_left Exact.min2 rest lowest ∈ lowest :: rest.
Proof.
  induction rest as [|x rest IH]; intros lowest; simpl.
  - apply list_elem_of_here.
  - specialize (IH (Exact.min2 lowest x)).
    apply elem_of_cons in IH as [Heq|Hin].
    + rewrite Heq. unfold Exact.min2.
      destruct (Exact.lt x lowest);
        [apply list_elem_of_further|]; apply list_elem_of_here.
    + by do 2 apply list_elem_of_further.
Qed.

Lemma Exact_max2_in (rest : list Q) : ∀ highest,
  fold_left Exact.max2 rest highest ∈ highest :: rest.
Proof.
  induction rest as [|x rest IH]; intros highest; simpl.
  - apply list_elem_of_here.
  - specialize (IH (Exact.max2 highest x)).
    apply elem_of_cons in IH as [Heq|Hin].
    + rewrite Heq. unfold Exact.max2.
      destruct (Exact.lt highest x);
        [apply list_elem_of_further|]; apply list_elem_of_here.
    + by do 2 apply list_elem_of_further.
Qed.

Lemma Exact_min_max_in (xs : list Q) :
  xs ≠ [] → Exact.min xs ∈ xs ∧ Exact.max xs ∈ xs.
Proof.
  destruct xs as [|x rest]; [done|]. intros _.
  split; [apply Exact_min2_in|apply Exact_max2_in].
Qed.

Lemma inject_length_cons {A} (x : A) (xs : list A) :
  (inject_Z (Z.of_nat (length (x :: xs))) == inject_Z (Z.of_nat (length xs)) + 1)%Q.
Proof.
  simpl length. rewrite Nat2Z.inj_succ. unfold Z.succ.
  rewrite inject_Z_plus. reflexivity.
Qed.

Lemma fold_Qplus_lower (m : Q) (xs : list Q) : ∀ acc,
  Forall (λ x, (m <= x)%Q) xs →
  (acc + m * inject_Z (Z.of_nat (length xs)) <= fold_left Qplus xs acc)%Q.
Proof.
  induction xs as [|x xs IH]; intros acc Hall.
  - change (inject_Z (Z.of_nat (length (@nil Q)))) with 0%Q. simpl. lra.
  - apply Forall_cons in Hall as [Hx Hall]. simpl fold_left.
    eapply Qle_trans; [|by apply IH].
    rewrite inject_length_cons. lra.
Qed.

Lemma fold_Qplus_upper (m : Q) (xs : list Q) : ∀ acc,
  Forall (λ x, (x <= m)%Q) xs →
  (fold_left Qplus xs acc <= acc + m * inject_Z (Z.of_nat (length xs)))%Q.
Proof.
  induction xs as [|x xs IH]; intros acc Hall.
  - change (inject_Z (Z.of_nat (length (@nil Q)))) with 0%Q. simpl. lra.
  - apply Forall_cons in Hall as [Hx Hall]. simpl fold_left.
    eapply Qle_trans; [by apply IH|].
    rewrite inject_length_cons. lra.
Qed.

Lemma mean_between (xs : list Q) :
  xs ≠ [] →
  (Math_min xs <= sum xs / nlit (Z.of_nat (length xs)))%Q ∧
  (sum xs / nlit (Z.of_nat (length xs)) <= Math_max xs)%Q.
Proof.
  intros Hne.
  assert (Hpos : (0 < inject_Z (Z.of_nat (length xs)))%Q).
  { destruct xs as [|x xs]; [done|].
    rewrite <- (Zlt_Qlt 0). simpl length. lia. }
  pose proof (fold_Qplus_lower _ xs 0%Q (Exact_min_le xs)) as Hlow.
  pose proof (fold_Qplus_upper _ xs 0%Q (Exact_max_ge xs)) as Hhigh.
  rewrite Qplus_0_l in Hlow, Hhigh.
  split.
  - by apply Qle_shift_div_l.
  - by apply Qle_shift_div_r.
Qed.

(** C1, in exact arithmetic: every summary that [processForecastData]
    emits has tempMin <= tempAvg <= tempMax; for each date of the input,
    tempMin and tempMax are the least and the greatest of the temperatures
    of its samples, and tempAvg is their sum divided by their number. *)
Theorem exact_mean_between_min_and_max (host : Host) (forecastList : list (Item.t Q)) :
  Forall (λ s, (Summary.tempMin s <= Summary.tempAvg s)%Q ∧
               (Summary.tempAvg s <= Summary.tempMax s)%Q)
    (processForecastData forecastList) ∧
  Forall (λ date,
            let temps := Item.main_temp <$> samples_on date forecastList in
            let s := summarise (day_of (samples_on date forecastList)) in
            Summary.tempMin s ∈ temps ∧
            Summary.tempMax s ∈ temps ∧
            Forall (λ t, (Summary.tempMin s <= t)%Q ∧ (t <= Summary.tempMax s)%Q)
              temps ∧
            Summary.tempAvg s
            = (fold_left Qplus temps 0 / inject_Z (Z.of_nat (length temps)))%Q)
    (first_seen (date_of <$> forecastList)).
Proof.
  split.
  - rewrite processForecastData_grouped. apply Forall_take, Forall_fmap.
    apply Forall_forall. intros date Hdate.
    destruct (samples_on_first_seen _ _ Hdate) as (item & items & Hitems & _).
    unfold compose. rewrite Hitems.
    apply (mean_between (Item.main_temp <$> item :: items)). done.
  - apply Forall_forall. intros date Hdate.
    destruct (samples_on_first_seen _ _ Hdate) as (item & items & Hitems & _).
    rewrite Hitems. cbv zeta.
    set (temps := Item.main_temp <$> item :: items).
    change (Summary.tempMin (summarise (day_of (item :: items))))
      with (Exact.min temps).
    change (Summary.tempMax (summarise (day_of (item :: items))))
      with (Exact.max temps).
    destruct (Exact_min_max_in temps) as [Hmin Hmax]; [done|].
    split; [done|]. split; [done|]. split; [|done].
    pose proof (Exact_min_le temps) as Hlow.
    pose proof (Exact_max_ge temps) as Hhigh.
    rewrite Forall_forall in Hlow, Hhigh |- *.
    intros t Ht. split; [by apply Hlow|by apply Hhigh].
Qed.

(** C1 fails in binary64 arithmetic: for three samples of 0.1 degrees on
    one day the sum 0.1 + 0.1 + 0.1 rounds to 0.30000000000000004, and its
    third to 0.10000000000000002, which is above tempMax = 0.1. *)
Lemma binary64_mean_above_max :
  Summary.tempMin <$> processForecastData three_tenths = [0.1%float] ∧
  Summary.tempMax <$> processForecastData three_tenths = [0.1%float] ∧
  Summary.tempAvg <$> processForecastData three_tenths
  = [0.10000000000000002%float] ∧
  PrimFloat.leb 0.10000000000000002 0.1 = false.
Proof. by vm_compute. Qed.

(** ** The saved-city collection *)

(* enter the body of a function: unfold it and the sequencing of its calls *)
Tactic Notation "enter" reference(f) :=
  unfold f, UseCities.canAddMore, Storage.getSavedCities, bind, ret,
    get_cities, get_selectedCities, localStorage_getItem.

Lemma JSON_roundtrip_cities {N} (cs : list (value N)) :
  Forall is_city cs → JSON_roundtrip cs = cs.
Proof.
  unfold JSON_roundtrip. induction 1 as [|v cs Hv _ IH]; [done|].
  rewrite fmap_cons, IH. by destruct v.
Qed.

Section CityScans.

Context {N : Type} `{Number N}.

Lemma some_same_place_found (city : City.t N) (cs : list (value N)) :
  Forall is_city cs →
  (∃ c, VCity c ∈ cs ∧ same_place city c = true) →
  some_same_place city cs = Some true.
Proof.
  induction 1 as [|v cs Hv _ IH]; intros (c & Hc & Hsame).
  - by apply elem_of_nil in Hc.
  - destruct v as [c'| |]; try done. simpl.
    destruct (same_place city c') eqn:Hc'; [done|].
    apply IH. exists c. split; [|done].
    apply elem_of_cons in Hc as [[= ->]|Hc]; [congruence|done].
Qed.

Lemma some_same_place_none (city : City.t N) (cs : list (value N)) :
  Forall is_city cs →
  (∀ c, VCity c ∈ cs → same_place city c = false) →
  some_same_place city cs = Some false.
Proof.
  induction 1 as [|v cs Hv _ IH]; intros Hnone; [done|].
  destruct v as [c'| |]; try done. simpl.
  rewrite (Hnone c') by (apply elem_of_cons; tauto).
  apply IH. intros c Hc. apply Hnone, elem_of_cons. tauto.
Qed.

Lemma some_same_place_returns (city : City.t N) (cs : list (value N)) :
  Forall is_city cs → ∃ b, some_same_place city cs = Some b.
Proof.
  induction 1 as [|v cs Hv _ [b IH]]; [by exists false|].
  destruct v as [c'| |]; try done. simpl.
  destruct (same_place city c'); eauto.
Qed.

Lemma filter_other_id_cities (cityId : string) (cs : list (value N)) :
  Forall is_city cs →
  filter_other_id cityId cs = Some (filter (λ v, ¬ has_id cityId v) cs).
Proof.
  induction 1 as [|v cs Hv _ IH]; [done|].
  destruct v as [c| |]; try done. simpl. rewrite IH. simpl.
  rewrite filter_cons. simpl.
  destruct (String.eqb_spec (City.id c) cityId) as [Heq|Hne].
  - rewrite decide_False; [done|]. tauto.
  - by rewrite decide_True.
Qed.

Lemma Forall_is_city_filter (P : value N → Prop) `{∀ v, Decision (P v)}
    (cs : list (value N)) :
  Forall is_city cs → Forall is_city (filter P cs).
Proof.
  rewrite !Forall_forall. intros Hcs v Hv.
  apply list_elem_of_filter in Hv as [_ Hv]. by apply Hcs.
Qed.

End CityScans.

Section AddCity.

Context {N : Type} `{Number N} `{Show N} `{Host}.

(* the id of a city tells the time at which it was stamped *)
Lemma stamp_id_inj (city : City.t N) (now now' today today' : Z) :
  City.id (stamp city now today) = City.id (stamp city now' today') →
  now = now'.
Proof.
  simpl. intros Heq. do 4 apply (inj (String.app _)) in Heq.
  by apply (inj pretty) in Heq.
Qed.

Lemma addCity_at_capacity (city : City.t N) (w : World N) :
  UseCities.maxCities ≤ length (cities w) →
  UseCities.addCity city w = Returns false w.
Proof.
  intros Hfull. enter UseCities.addCity.
  destruct (Nat.ltb_spec (length (cities w)) UseCities.maxCities); [lia|done].
Qed.

Lemma addCity_same_place (city : City.t N) (w : World N) :
  Forall is_city (cities w) →
  (∃ c, VCity c ∈ cities w ∧ same_place city c = true) →
  UseCities.addCity city w = Returns false w.
Proof.
  intros Hcities Hsame.
  enter UseCities.addCity.
  destruct (length (cities w) <? UseCities.maxCities); [|done]. simpl.
  unfold or_throw. by rewrite some_same_place_found.
Qed.

Lemma addCity_appends (city : City.t N) (w : World N) :
  length (cities w) < UseCities.maxCities →
  Forall is_city (cities w) →
  Forall is_city (saved w) →
  (∀ c, VCity c ∈ cities w → same_place city c = false) →
  ∃ w',
    UseCities.addCity city w = Returns true w' ∧
    cities w'
    = cities w ++ [VCity (stamp city (clock w (reads w)) (clock w (S (reads w))))] ∧
    selectedCities w' = selectedCities w.
Proof.
  intros Hroom Hcities Hsaved Hnew.
  enter UseCities.addCity.
  destruct (Nat.ltb_spec (length (cities w)) UseCities.maxCities); [|lia]. simpl.
  unfold or_throw at 1. rewrite some_same_place_none by done. simpl.
  enter Storage.addCity.
  simpl. fold (saved w).
  destruct (some_same_place_returns
              (stamp city (clock w (reads w)) (clock w (S (reads w))))
              (saved w) Hsaved) as [b ->].
  simpl. destruct b; simpl; eauto.
Qed.

End AddCity.

(** C4: [addCity] returns false and leaves the state as it was (the
    array, the selection, local storage) when the array already holds
    [maxCities] = 6 elements, and when one of its cities has the latitude
    and the longitude of the new one; otherwise it returns true and has
    appended the city to the end of the array, under a new id made of its
    coordinates and of the time on the clock, which no other time would have
    given. *)
Theorem addCity_outcomes {N : Type} `{Number N} `{Show N} `{Host}
    (city : City.t N) (w : World N) :
  (UseCities.maxCities ≤ length (cities w) →
   UseCities.addCity city w = Returns false w) ∧
  (Forall is_city (cities w) →
   (∃ c, VCity c ∈ cities w ∧ same_place city c = true) →
   UseCities.addCity city w = Returns false w) ∧
  (length (cities w) < UseCities.maxCities →
   Forall is_city (cities w) →
   Forall is_city (saved w) →
   (∀ c, VCity c ∈ cities w → same_place city c = false) →
   ∃ w',
     UseCities.addCity city w = Returns true w' ∧
     cities w'
     = cities w ++ [VCity (stamp city (clock w (reads w)) (clock w (S (reads w))))] ∧
     selectedCities w' = selectedCities w ∧
     (∀ now today,
        City.id (stamp city now today)
        = City.id (stamp city (clock w (reads w)) (clock w (S (reads w)))) →
        now = clock w (reads w))).
Proof.
  split; [apply addCity_at_capacity|].
  split; [apply addCity_same_place|].
  intros Hroom Hcities Hsaved Hnew.
  destruct (addCity_appends city w Hroom Hcities Hsaved Hnew)
    as (w' & Hrun & Hpushed & Hselected).
  exists w'. repeat (split; [done|]). intros now today. apply stamp_id_inj.
Qed.

Section RemoveCity.

Context {N : Type} `{Number N} `{Show N} `{Host}.

Lemma removeCity_filters (cityId : string) (w : World N) :
  Forall is_city (cities w) →
  Forall is_city (saved w) →
  UseCities.removeCity cityId w
  = Returns tt
      {| cities := filter (λ v, ¬ has_id cityId v) (cities w);
         selectedCities := filter (λ id, id ≠ cityId) (selectedCities w);
         localStorage := Some (filter (λ v, ¬ has_id cityId v) (saved w));
         clock := clock w;
         reads := reads w |}.
Proof.
  intros Hcities Hsaved.
  enter UseCities.removeCity. unfold or_throw.
  rewrite filter_other_id_cities by done. simpl.
  enter Storage.removeCity. unfold Storage.saveCities, or_throw. simpl.
  fold (saved w).
  rewrite filter_other_id_cities by done. simpl.
  by rewrite JSON_roundtrip_cities by by apply Forall_is_city_filter.
Qed.

End RemoveCity.

(** C7: on a collection of cities [removeCity] removes the entries whose id
    is the given one and no other, the rest keeping their order; it removes
    the id from the selection; and it leaves the list of cities as it was
    when no city has the id. *)
Theorem removeCity_removes_matching {N : Type} `{Number N} `{Show N} `{Host}
    (cityId : string) (w : World N) :
  Forall is_city (cities w) →
  Forall is_city (saved w) →
  ∃ w',
    UseCities.removeCity cityId w = Returns tt w' ∧
    cities w' = filter (λ v, ¬ has_id cityId v) (cities w) ∧
    cities w' `sublist_of` cities w ∧
    (∀ v, v ∈ cities w' ↔ v ∈ cities w ∧ ¬ has_id cityId v) ∧
    selectedCities w' `sublist_of` selectedCities w ∧
    (cityId ∉ selectedCities w') ∧
    (∀ id, id ≠ cityId → id ∈ selectedCities w' ↔ id ∈ selectedCities w) ∧
    ((∀ v, v ∈ cities w → ¬ has_id cityId v) → cities w' = cities w).
Proof.
  intros Hcities Hsaved. eexists. split; [by apply removeCity_filters|]. simpl.
  split; [done|]. split; [apply sublist_filter|].
  split; [intros v; rewrite list_elem_of_filter; tauto|].
  split; [apply sublist_filter|].
  split; [rewrite list_elem_of_filter; tauto|].
  split; [intros id Hid; rewrite list_elem_of_filter; tauto|].
  intros Hnone. induction (cities w) as [|v cs IH]; [done|].
  rewrite filter_cons_True by (apply Hnone, elem_of_cons; tauto).
  f_equal. apply IH; [by eapply Forall_inv_tail|].
  intros v' Hv'. apply Hnone, elem_of_cons. tauto.
Qed.

(** ** [indexOf] and [splice] *)

Lemma indexOf_lower (arr : list string) (x : string) : (-1 ≤ indexOf arr x)%Z.
Proof.
  induction arr as [|y arr IH]; simpl; [done|].
  destruct (String.eqb y x); [lia|].
  destruct (Z.ltb_spec (indexOf arr x) 0); lia.
Qed.

Lemma indexOf_absent (arr : list string) (x : string) :
  x ∉ arr → indexOf arr x = (-1)%Z.
Proof.
  induction arr as [|y arr IH]; simpl; [done|].
  intros [Hne Hx]%not_elem_of_cons.
  destruct (String.eqb_spec y x); [congruence|].
  rewrite IH by done. done.
Qed.

Lemma indexOf_first (pre post : list string) (x : string) :
  x ∉ pre → indexOf (pre ++ x :: post) x = Z.of_nat (length pre).
Proof.
  induction pre as [|y pre IH]; simpl.
  - by rewrite String.eqb_refl.
  - intros [Hne Hx]%not_elem_of_cons.
    destruct (String.eqb_spec y x); [congruence|].
    rewrite IH by done.
    destruct (Z.ltb_spec (Z.of_nat (length pre)) 0); lia.
Qed.

Lemma clamp_index_le (len : nat) (start : Z) : clamp_index len start ≤ len.
Proof. unfold clamp_index. destruct (Z.ltb_spec start 0); lia. Qed.

Lemma clamp_index_inside (len : nat) (start : Z) :
  (0 ≤ start ≤ Z.of_nat len)%Z → Z.of_nat (clamp_index len start) = start.
Proof. unfold clamp_index. destruct (Z.ltb_spec start 0); lia. Qed.

Lemma clamp_index_beyond (len : nat) (start : Z) :
  (Z.of_nat len ≤ start)%Z → clamp_index len start = len.
Proof. unfold clamp_index. destruct (Z.ltb_spec start 0); lia. Qed.

Lemma splice_one {A} (pre post : list A) (x : A) :
  splice (Z.of_nat (length pre)) 1 [] (pre ++ x :: post) = ([x], pre ++ post).
Proof.
  unfold splice.
  assert (Hstart : clamp_index (length (pre ++ x :: post)) (Z.of_nat (length pre))
                   = length pre).
  { apply Nat2Z.inj, clamp_index_inside. rewrite length_app. lia. }
  rewrite Hstart.
  assert (Hcount : Z.to_nat (Z.min (Z.max 1 0)
                     (Z.of_nat (length (pre ++ x :: post)) - Z.of_nat (length pre)))
                   = 1).
  { rewrite length_app. simpl length. lia. }
  rewrite Hcount.
  by rewrite drop_app_length, take_app_length, drop_app_add.
Qed.

Lemma splice_inside {A} (start : Z) (arr : list A) :
  (0 ≤ start < Z.of_nat (length arr))%Z →
  ∃ x pre post, arr = pre ++ x :: post ∧ splice start 1 [] arr = ([x], pre ++ post).
Proof.
  intros Hstart.
  destruct (lookup_lt_is_Some_2 arr (Z.to_nat start)) as [x Hx]; [lia|].
  exists x, (take (Z.to_nat start) arr), (drop (S (Z.to_nat start)) arr).
  pose proof (take_drop_middle _ _ _ Hx) as Hsplit.
  split; [done|]. rewrite <- Hsplit at 1.
  replace start with (Z.of_nat (length (take (Z.to_nat start) arr))) at 1.
  - apply splice_one.
  - rewrite length_take. lia.
Qed.

Lemma splice_beyond {A} (start : Z) (arr : list A) :
  (Z.of_nat (length arr) ≤ start)%Z → splice start 1 [] arr = ([], arr).
Proof.
  intros Hstart. unfold splice. rewrite clamp_index_beyond by done.
  replace (Z.to_nat _) with 0 by lia.
  by rewrite Nat.add_0_r, take_0, drop_all, take_ge, app_nil_r.
Qed.

Lemma splice_insert {A} (start : Z) (x : A) (arr : list A) :
  splice start 0 [x] arr
  = ([], take (clamp_index (length arr) start) arr
         ++ x :: drop (clamp_index (length arr) start) arr).
Proof.
  unfold splice. pose proof (clamp_index_le (length arr) start).
  replace (Z.to_nat _) with 0 by lia.
  by rewrite Nat.add_0_r, take_0.
Qed.

Section Toggle.

Context {N : Type} `{Number N} `{Show N} `{Host}.

Lemma toggle_absent (cityId : string) (w : World N) :
  cityId ∉ selectedCities w →
  UseCities.toggleCitySelection cityId w
  = set_selectedCities (selectedCities w ++ [cityId]) w.
Proof.
  intros Hout. enter UseCities.toggleCitySelection.
  by rewrite indexOf_absent.
Qed.

Lemma toggle_present (cityId : string) (w : World N) pre post :
  selectedCities w = pre ++ cityId :: post →
  cityId ∉ pre →
  UseCities.toggleCitySelection cityId w = set_selectedCities (pre ++ post) w.
Proof.
  intros Hsel Hpre. enter UseCities.toggleCitySelection.
  rewrite Hsel, indexOf_first, splice_one by done.
  destruct (Z.eqb_spec (Z.of_nat (length pre)) (-1)); [lia|done].
Qed.

End Toggle.

(** C9: on a selection that is a set (no id twice), two calls of
    [toggleCitySelection] with one id give back the same set: the first
    removes the id if it is selected and adds it if it is not, the second
    undoes that.  Nothing else changes, and when the id was not selected
    the list of ids is the same list again. *)
Theorem toggleCitySelection_twice {N : Type} `{Number N} `{Show N} `{Host}
    (cityId : string) (w : World N) :
  NoDup (selectedCities w) →
  ∃ w1 w2,
    UseCities.toggleCitySelection cityId w = Returns tt w1 ∧
    UseCities.toggleCitySelection cityId w1 = Returns tt w2 ∧
    (cityId ∈ selectedCities w1 ↔ cityId ∉ selectedCities w) ∧
    selectedCities w2 ≡ₚ selectedCities w ∧
    NoDup (selectedCities w2) ∧
    (cityId ∉ selectedCities w → selectedCities w2 = selectedCities w) ∧
    cities w2 = cities w ∧
    localStorage w2 = localStorage w.
Proof.
  intros Hnodup.
  destruct (decide (cityId ∈ selectedCities w)) as [Hin|Hout].
  - destruct (list_elem_of_split_l _ _ Hin) as (pre & post & Hsel & Hpre).
    assert (Hpost : cityId ∉ post).
    { rewrite Hsel in Hnodup. apply NoDup_app in Hnodup as (_ & _ & Hn).
      by apply NoDup_cons in Hn as [? _]. }
    assert (Hrest : cityId ∉ pre ++ post).
    { rewrite elem_of_app. tauto. }
    eexists _, _. split; [by apply toggle_present|].
    split; [by apply toggle_absent|]. simpl.
    split; [tauto|].
    assert (Hperm : (pre ++ post) ++ [cityId] ≡ₚ selectedCities w).
    { rewrite Hsel, <- app_assoc. apply Permutation_app_head.
      symmetry. apply Permutation_cons_append. }
    split; [done|]. split; [by rewrite Hperm|]. done.
  - eexists _, _. split; [by apply toggle_absent|].
    split; [by apply (toggle_present _ _ (selectedCities w) [])|]. simpl.
    rewrite app_nil_r. split; [|done].
    split; [intros _; done|]. rewrite elem_of_app, list_elem_of_singleton. tauto.
Qed.

Section MoveCity.

Context {N : Type} `{Number N} `{Show N} `{Host}.

Lemma reorderCities_returns (newOrder : list (value N)) (w : World N) :
  UseCities.reorderCities newOrder w
  = Returns tt
      {| cities := newOrder;
         selectedCities := selectedCities w;
         localStorage := Some (JSON_roundtrip newOrder);
         clock := clock w;
         reads := reads w |}.
Proof. reflexivity. Qed.

Lemma moveCity_beyond (fromIndex toIndex : Z) (w : World N) :
  (Z.of_nat (length (cities w)) ≤ fromIndex)%Z →
  UseCities.moveCity fromIndex toIndex w
  = UseCities.reorderCities
      (take (clamp_index (length (cities w)) toIndex) (cities w)
       ++ VUndefined :: drop (clamp_index (length (cities w)) toIndex) (cities w))
      w.
Proof.
  intros Hfrom. enter UseCities.moveCity.
  by rewrite splice_beyond, splice_insert.
Qed.

End MoveCity.

(** C10: when [fromIndex] is at or beyond the length n of the array,
    [moveCity] returns without an error; the array it leaves has n+1
    elements, [undefined] having been inserted at the position [toIndex]
    stands for (which is [toIndex] itself when 0 <= toIndex <= n), and the
    list written to local storage has n+1 elements too, with [null] at that
    position. *)
Theorem moveCity_from_beyond_end {N : Type} `{Number N} `{Show N} `{Host}
    (fromIndex toIndex : Z) (w : World N) :
  (Z.of_nat (length (cities w)) ≤ fromIndex)%Z →
  ∃ w' pos,
    UseCities.moveCity fromIndex toIndex w = Returns tt w' ∧
    pos = clamp_index (length (cities w)) toIndex ∧
    ((0 ≤ toIndex ≤ Z.of_nat (length (cities w)))%Z → Z.of_nat pos = toIndex) ∧
    cities w' = take pos (cities w) ++ VUndefined :: drop pos (cities w) ∧
    length (cities w') = S (length (cities w)) ∧
    cities w' !! pos = Some VUndefined ∧
    ¬ Forall is_city (cities w') ∧
    localStorage w' = Some (JSON_roundtrip (cities w')) ∧
    length (saved w') = S (length (cities w)) ∧
    saved w' !! pos = Some VNull ∧
    selectedCities w' = selectedCities w.
Proof.
  intros Hfrom. pose proof (clamp_index_le (length (cities w)) toIndex) as Hpos.
  set (pos := clamp_index (length (cities w)) toIndex) in *.
  eexists _, pos. rewrite moveCity_beyond, reorderCities_returns by done.
  fold pos. split; [done|]. simpl. split; [done|].
  split; [by apply clamp_index_inside|]. split; [done|].
  assert (Hlen : length (take pos (cities w) ++ VUndefined :: drop pos (cities w))
                 = S (length (cities w))).
  { rewrite length_app, length_take. simpl. rewrite length_drop. lia. }
  assert (Hat : (take pos (cities w) ++ VUndefined :: drop pos (cities w)) !! pos
                = Some (@VUndefined N)).
  { apply list_lookup_middle. rewrite length_take. lia. }
  split; [done|]. split; [done|].
  split.
  { intros Hall. rewrite Forall_lookup in Hall. by apply (Hall _ _ Hat). }
  split; [done|]. unfold saved, JSON_roundtrip. simpl.
  split; [by rewrite length_fmap|].
  split; [by rewrite list_lookup_fmap, Hat|done].
Qed.

(* move(0, 2) on A, B, C gives B, C, A *)
Example moveCity_first_to_last :
  UseCities.moveCity 0 2 (UseCities.useCities (Some three_cities) frozen)
  = Returns tt
      {| cities := [VCity paris; VCity tokyo; VCity london];
         selectedCities := [];
         localStorage := Some [VCity paris; VCity tokyo; VCity london];
         clock := frozen;
         reads := 0 |}.
Proof. reflexivity. Qed.

(** ** What is written to local storage *)

Section Persistence.

Context {N : Type} `{Number N} `{Show N} `{Host}.

Lemma removeCity_persists (cityId : string) (w : World N) :
  Forall is_city (cities w) →
  saved w = cities w →
  ∃ w', UseCities.removeCity cityId w = Returns tt w' ∧ saved w' = cities w'.
Proof.
  intros Hcities Hsaved. eexists. split.
  - apply removeCity_filters; [done|]. by rewrite Hsaved.
  - unfold saved at 1. simpl. by rewrite Hsaved.
Qed.

Lemma reorderCities_persists (newOrder : list (value N)) (w : World N) :
  Forall is_city newOrder →
  ∃ w', UseCities.reorderCities newOrder w = Returns tt w' ∧
        cities w' = newOrder ∧ saved w' = cities w'.
Proof.
  intros Hcities. eexists. split; [apply reorderCities_returns|].
  split; [done|]. unfold saved. simpl. by apply JSON_roundtrip_cities.
Qed.

Lemma moveCity_persists (fromIndex toIndex : Z) (w : World N) :
  Forall is_city (cities w) →
  (0 ≤ fromIndex < Z.of_nat (length (cities w)))%Z →
  ∃ w', UseCities.moveCity fromIndex toIndex w = Returns tt w' ∧
        cities w' ≡ₚ cities w ∧ saved w' = cities w'.
Proof.
  intros Hcities Hfrom.
  destruct (splice_inside fromIndex (cities w) Hfrom)
    as (v & pre & post & Hsplit & Hsplice).
  enter UseCities.moveCity.
  rewrite Hsplice, splice_insert.
  set (pos := clamp_index (length (pre ++ post)) toIndex).
  assert (Hperm : take pos (pre ++ post) ++ v :: drop pos (pre ++ post)
                  ≡ₚ cities w).
  { by rewrite <- Permutation_middle, take_drop, Hsplit, <- Permutation_middle. }
  eexists. split; [apply reorderCities_returns|]. split; [done|].
  unfold saved. simpl. apply JSON_roundtrip_cities. by rewrite Hperm.
Qed.

Lemma addCity_returns (city : City.t N) (w : World N) :
  length (cities w) < UseCities.maxCities →
  Forall is_city (cities w) →
  saved w = cities w →
  (∀ c, VCity c ∈ cities w → same_place city c = false) →
  UseCities.addCity city w
  = Returns true
      {| cities :=
           cities w
           ++ [VCity (stamp city (clock w (reads w)) (clock w (S (reads w))))];
         selectedCities := selectedCities w;
         localStorage :=
           Some (cities w
                 ++ [VCity (stamp city (clock w (S (S (reads w))))
                              (clock w (S (S (S (reads w))))))]);
         clock := clock w;
         reads := S (S (S (S (reads w)))) |}.
Proof.
  intros Hroom Hcities Hsaved Hnew.
  enter UseCities.addCity.
  destruct (Nat.ltb_spec (length (cities w)) UseCities.maxCities); [|lia]. simpl.
  unfold or_throw at 1. rewrite some_same_place_none by done. simpl.
  enter Storage.addCity.
  simpl. fold (saved w). rewrite Hsaved.
  unfold or_throw. rewrite some_same_place_none by done. simpl.
  rewrite JSON_roundtrip_cities; [done|].
  apply Forall_app. split; [done|]. by repeat constructor.
Qed.

(* the storage layer stamps the city again: what it writes is what is in
   memory when the clock has not moved in between *)
Lemma addCity_persists_within_a_tick (city : City.t N) (w : World N) :
  length (cities w) < UseCities.maxCities →
  Forall is_city (cities w) →
  saved w = cities w →
  (∀ c, VCity c ∈ cities w → same_place city c = false) →
  clock w (S (S (reads w))) = clock w (reads w) →
  clock w (S (S (S (reads w)))) = clock w (S (reads w)) →
  ∃ w', UseCities.addCity city w = Returns true w' ∧ saved w' = cities w'.
Proof.
  intros Hroom Hcities Hsaved Hnew Hid Hat. eexists.
  split; [by apply addCity_returns|]. unfold saved. simpl. by rewrite Hid, Hat.
Qed.

(* and something else when the clock has moved *)
Lemma addCity_diverges_across_a_tick (city : City.t N) (w : World N) :
  length (cities w) < UseCities.maxCities →
  Forall is_city (cities w) →
  saved w = cities w →
  (∀ c, VCity c ∈ cities w → same_place city c = false) →
  clock w (S (S (reads w))) ≠ clock w (reads w) →
  ∃ w', UseCities.addCity city w = Returns true w' ∧ saved w' ≠ cities w'.
Proof.
  intros Hroom Hcities Hsaved Hnew Htick. eexists.
  split; [by apply addCity_returns|]. unfold saved. simpl.
  intros Heq. apply app_inv_head in Heq.
  apply Htick, (stamp_id_inj city _ _ (clock w (S (S (S (reads w)))))
                  (clock w (S (reads w)))).
  congruence.
Qed.

End Persistence.

Lemma addCity_outcomes_witness :
  UseCities.addCity rome (UseCities.useCities (Some six_cities) frozen)
  = Returns false (UseCities.useCities (Some six_cities) frozen) ∧
  UseCities.addCity london (UseCities.useCities (Some three_cities) frozen)
  = Returns false (UseCities.useCities (Some three_cities) frozen) ∧
  ∃ w', UseCities.addCity london (UseCities.useCities None frozen) = Returns true w' ∧
        ids (cities w') = [Some "51.5--0.12-1717200000000"].
Proof.
  split; [|split].
  - apply (proj1 (addCity_outcomes rome
                    (UseCities.useCities (Some six_cities) frozen))).
    vm_compute. lia.
  - apply (proj1 (proj2 (addCity_outcomes london
                           (UseCities.useCities (Some three_cities) frozen)))).
    + repeat constructor.
    + exists london. split; [apply list_elem_of_here|reflexivity].
  - destruct (addCity_outcomes london (UseCities.useCities None frozen))
      as (_ & _ & Hadd).
    destruct Hadd as (w' & Hrun & Hcities & _ & _).
    + vm_compute. lia.
    + constructor.
    + constructor.
    + intros c Hc. by apply elem_of_nil in Hc.
    + exists w'. split; [exact Hrun|]. rewrite Hcities. reflexivity.
Defined.

Lemma removeCity_removes_matching_witness :
  ∃ w', UseCities.removeCity (City.id paris)
          (UseCities.useCities (Some three_cities) frozen) = Returns tt w' ∧
        cities w' = [VCity london; VCity tokyo].
Proof.
  destruct (removeCity_removes_matching (City.id paris)
              (UseCities.useCities (Some three_cities) frozen))
    as (w' & Hrun & Hcities & _).
  - repeat constructor.
  - repeat constructor.
  - exists w'. split; [exact Hrun|]. rewrite Hcities. reflexivity.
Defined.

Lemma toggleCitySelection_twice_witness :
  ∃ w0 w1 w2,
    UseCities.selectAllCities (UseCities.useCities (Some three_cities) frozen)
    = Returns tt w0 ∧
    UseCities.toggleCitySelection (City.id london) w0 = Returns tt w1 ∧
    UseCities.toggleCitySelection (City.id london) w1 = Returns tt w2 ∧
    selectedCities w2 ≡ₚ selectedCities w0.
Proof.
  eexists. destruct (toggleCitySelection_twice (City.id london)
    {| cities := three_cities;
       selectedCities := [City.id london; City.id paris; City.id tokyo];
       localStorage := Some three_cities; clock := frozen; reads := 0 |})
    as (w1 & w2 & Hfirst & Hsecond & _ & Hperm & _).
  - apply (bool_decide_unpack _). reflexivity.
  - exists w1, w2. split; [reflexivity|]. split; [exact Hfirst|].
    split; [exact Hsecond|exact Hperm].
Defined.

Lemma moveCity_from_beyond_end_witness :
  ∃ w', UseCities.moveCity 3 1 (UseCities.useCities (Some three_cities) frozen)
        = Returns tt w' ∧
        cities w' = [VCity london; VUndefined; VCity paris; VCity tokyo] ∧
        saved w' = [VCity london; VNull; VCity paris; VCity tokyo].
Proof.
  destruct (moveCity_from_beyond_end 3 1
              (UseCities.useCities (Some three_cities) frozen))
    as (w' & pos & Hrun & -> & _ & Hcities & _ & _ & _ & Hstored & _).
  - vm_compute. discriminate.
  - exists w'. split; [exact Hrun|]. split; [exact Hcities|].
    unfold saved. rewrite Hstored, Hcities. reflexivity.
Defined.

(** C5 fails for [addCity]: the city pushed onto the array carries the id
    and the date made by the composable, and [addCity] of the storage
    module, given that city, stamps it again from the clock before it writes
    it.  When the clock advances by a millisecond between the readings of
    the composable and those of the storage module, adding London to the
    empty collection leaves an id ending in ...000 in memory and an id
    ending in ...001 in local storage, and [reloadCities] then replaces the
    one by the other. *)
Theorem addCity_stores_another_id :
  ∃ w1 w2,
    saved (UseCities.useCities None ticking)
    = cities (UseCities.useCities (N:=Q) None ticking) ∧
    UseCities.addCity london (UseCities.useCities None ticking) = Returns true w1 ∧
    ids (cities w1) = [Some "51.5--0.12-1717200000000"] ∧
    ids (saved w1) = [Some "51.5--0.12-1717200000001"] ∧
    saved w1 ≠ cities w1 ∧
    UseCities.reloadCities w1 = Returns tt w2 ∧
    cities w2 ≠ cities w1.
Proof.
  eexists _, _. split; [reflexivity|]. split.
  { apply addCity_returns.
    - vm_compute. lia.
    - constructor.
    - reflexivity.
    - intros c Hc. by apply elem_of_nil in Hc. }
  split; [reflexivity|]. split; [reflexivity|].
  split; [intros Heq; apply (f_equal ids) in Heq; discriminate Heq|].
  split; [reflexivity|].
  intros Heq; apply (f_equal ids) in Heq; discriminate Heq.
Qed.

(** * More of the saved-city collection *)

Section CollectionInvariants.

Context {N : Type} `{Number N} `{Show N} `{Host}.

Lemma distinct_places_snoc (cs : list (value N)) (c : City.t N) :
  distinct_places cs →
  (∀ c', VCity c' ∈ cs → same_place c c' = false) →
  distinct_places (cs ++ [VCity c]).
Proof.
  induction cs as [|v cs IH]; intros Hcs Hnew; simpl.
  - split; [|done]. intros c' Hc'. by apply elem_of_nil in Hc'.
  - assert (Hrest : ∀ c', VCity c' ∈ cs → same_place c c' = false).
    { intros c' Hc'. apply Hnew, elem_of_cons. tauto. }
    destruct v as [c0| |]; simpl in Hcs; [|by apply IH..].
    destruct Hcs as [Hc0 Hcs]. split; [|by apply IH].
    intros c' [Hc'|Hc']%elem_of_app; [by apply Hc0|].
    apply list_elem_of_singleton in Hc'. injection Hc' as ->.
    apply Hnew, list_elem_of_here.
Qed.

Lemma distinct_places_sublist (cs cs' : list (value N)) :
  cs' `sublist_of` cs → distinct_places cs → distinct_places cs'.
Proof.
  induction 1 as [|v l1 l2 Hsub IH|v l1 l2 Hsub IH]; intros Hcs; [done|..].
  - destruct v as [c| |]; simpl in *; [|by apply IH..].
    destruct Hcs as [Hc Hcs]. split; [|by apply IH].
    intros c' Hc'. apply Hc. by eapply elem_of_sublist.
  - apply IH. destruct v as [c| |]; simpl in Hcs; tauto.
Qed.

Lemma some_same_place_false (city : City.t N) (cs : list (value N)) :
  some_same_place city cs = Some false →
  Forall is_city cs ∧ ∀ c, VCity c ∈ cs → same_place city c = false.
Proof.
  induction cs as [|v cs IH]; simpl.
  - intros _. split; [constructor|]. intros c Hc. by apply elem_of_nil in Hc.
  - destruct v as [c0| |]; [|done..].
    destruct (same_place city c0) eqn:Hc0; [done|]. intros [Hcs Hnone]%IH.
    split; [by constructor|].
    intros c [[= ->]|Hc]%elem_of_cons; [done|by apply Hnone].
Qed.

Lemma filter_other_id_sublist (cityId : string) (cs cs' : list (value N)) :
  filter_other_id cityId cs = Some cs' → cs' `sublist_of` cs.
Proof.
  revert cs'. induction cs as [|v cs IH]; simpl; intros cs'.
  - intros [= <-]. constructor.
  - destruct v as [c| |]; [|done..].
    destruct (filter_other_id cityId cs) as [rest|]; [|done]. simpl.
    intros [= <-]. destruct (String.eqb (City.id c) cityId).
    + apply sublist_cons. by apply IH.
    + apply sublist_skip. by apply IH.
Qed.

(* whatever becomes of the call, addCity leaves the array as it was or
   appends the stamped city to it, the latter only below the capacity and
   when no city was found at its place *)
Lemma addCity_state (city : City.t N) (w : World N) :
  cities (state_after (UseCities.addCity city w)) = cities w
  ∨ (length (cities w) < UseCities.maxCities ∧
     some_same_place city (cities w) = Some false ∧
     cities (state_after (UseCities.addCity city w))
     = cities w ++ [VCity (stamp city (clock w (reads w)) (clock w (S (reads w))))]).
Proof.
  enter UseCities.addCity.
  destruct (Nat.ltb_spec (length (cities w)) UseCities.maxCities); [|by left].
  simpl. unfold or_throw at 1.
  destruct (some_same_place city (cities w)) as [[|]|]; [by left| |by left].
  right. split; [done|]. split; [done|]. simpl.
  enter Storage.addCity. simpl.
  set (newCity := stamp city _ _).
  unfold or_throw.
  destruct (some_same_place newCity _) as [[|]|]; done.
Qed.

(* and removeCity leaves it as it was or filtered *)
Lemma removeCity_state (cityId : string) (w : World N) :
  cities (state_after (UseCities.removeCity cityId w)) = cities w
  ∨ filter_other_id cityId (cities w)
    = Some (cities (state_after (UseCities.removeCity cityId w))).
Proof.
  enter UseCities.removeCity. unfold or_throw at 1.
  destruct (filter_other_id cityId (cities w)) as [cs|]; [|by left].
  right. simpl. enter Storage.removeCity. simpl. unfold or_throw.
  by destruct (filter_other_id cityId _).
Qed.

End CollectionInvariants.

(** X1: [addCity] never lets the array grow beyond [maxCities] = 6
    elements: from an array of at most six, whatever its elements and
    whether the call returns true, returns false or throws, the array it
    leaves has at most six. *)
Theorem addCity_never_exceeds_capacity {N : Type} `{Number N} `{Show N} `{Host}
    (city : City.t N) (w : World N) :
  length (cities w) ≤ UseCities.maxCities →
  length (cities (state_after (UseCities.addCity city w))) ≤ UseCities.maxCities.
Proof.
  intros Hlen. destruct (addCity_state city w) as [->|(Hroom & _ & ->)]; [done|].
  rewrite length_app. simpl. lia.
Qed.

Lemma addCity_never_exceeds_capacity_witness :
  length (cities (state_after
    (UseCities.addCity rome (UseCities.useCities (Some six_cities) frozen)))) ≤ 6.
Proof.
  apply (addCity_never_exceeds_capacity rome
           (UseCities.useCities (Some six_cities) frozen)).
  vm_compute. lia.
Defined.

(** X2: an array in which no city is at the latitude and longitude of an
    earlier one stays so under [addCity] and under [removeCity], whatever
    the argument and however the call ends. *)
Theorem places_stay_distinct {N : Type} `{Number N} `{Show N} `{Host}
    (city : City.t N) (cityId : string) (w : World N) :
  distinct_places (cities w) →
  distinct_places (cities (state_after (UseCities.addCity city w))) ∧
  distinct_places (cities (state_after (UseCities.removeCity cityId w))).
Proof.
  intros Hdistinct. split.
  - destruct (addCity_state city w) as [->|(_ & Hnone & ->)]; [done|].
    apply some_same_place_false in Hnone as [_ Hnone].
    by apply distinct_places_snoc.
  - destruct (removeCity_state cityId w) as [->|Hfilter]; [done|].
    eapply distinct_places_sublist; [|done].
    by eapply filter_other_id_sublist.
Qed.

Lemma three_cities_distinct : distinct_places three_cities.
Proof.
  repeat split; intros c' Hc';
    repeat (apply elem_of_cons in Hc' as [[= ->]|Hc']; [reflexivity|]);
    by apply elem_of_nil in Hc'.
Qed.

Lemma places_stay_distinct_witness :
  distinct_places (cities (state_after
    (UseCities.addCity rome (UseCities.useCities (Some three_cities) frozen)))) ∧
  distinct_places (cities (state_after
    (UseCities.removeCity (City.id paris)
       (UseCities.useCities (Some three_cities) frozen)))).
Proof.
  apply (places_stay_distinct rome (City.id paris)
           (UseCities.useCities (Some three_cities) frozen)).
  apply three_cities_distinct.
Defined.

(** ** Moving a city within the array *)

Lemma take_drop_delete {A} (i : nat) (x : A) (l : list A) :
  l !! i = Some x → take i (delete i l) ++ x :: drop i (delete i l) = l.
Proof.
  intros Hx. pose proof (lookup_lt_Some _ _ _ Hx) as Hi.
  rewrite delete_take_drop.
  rewrite take_app_length', drop_app_length' by (rewrite length_take; lia).
  by apply take_drop_middle.
Qed.

Lemma splice_delete {A} (i : nat) (x : A) (l : list A) :
  l !! i = Some x → splice (Z.of_nat i) 1 [] l = ([x], delete i l).
Proof.
  intros Hx. pose proof (lookup_lt_Some _ _ _ Hx) as Hi.
  rewrite delete_take_drop. rewrite <- (take_drop_middle _ _ _ Hx) at 1.
  replace (Z.of_nat i) with (Z.of_nat (length (take i l)))
    by (rewrite length_take; lia).
  apply splice_one.
Qed.

Section MoveWithin.

Context {N : Type} `{Number N} `{Show N} `{Host}.

Lemma moveCity_inside (i j : nat) (v : value N) (w : World N) :
  cities w !! i = Some v →
  j < length (cities w) →
  UseCities.moveCity (Z.of_nat i) (Z.of_nat j) w
  = UseCities.reorderCities
      (take j (delete i (cities w)) ++ v :: drop j (delete i (cities w))) w.
Proof.
  intros Hv Hj. pose proof (lookup_lt_Some _ _ _ Hv) as Hi.
  enter UseCities.moveCity.
  rewrite (splice_delete i v) by done. rewrite splice_insert.
  replace (clamp_index _ _) with j; [done|].
  apply Nat2Z.inj. rewrite clamp_index_inside; [done|].
  rewrite length_delete by eauto. lia.
Qed.

End MoveWithin.

(** X3: for two positions of the array, [moveCity] takes the element at
    [fromIndex] to the position [toIndex] and leaves the other elements in
    the order they had: the array without the moved element is the same
    before and after.  Nothing is lost or added, and the selection is
    untouched. *)
Theorem moveCity_within_the_array {N : Type} `{Number N} `{Show N} `{Host}
    (i j : nat) (w : World N) :
  i < length (cities w) →
  j < length (cities w) →
  ∃ w',
    UseCities.moveCity (Z.of_nat i) (Z.of_nat j) w = Returns tt w' ∧
    cities w' !! j = cities w !! i ∧
    delete j (cities w') = delete i (cities w) ∧
    length (cities w') = length (cities w) ∧
    cities w' ≡ₚ cities w ∧
    selectedCities w' = selectedCities w.
Proof.
  intros Hi Hj. destruct (lookup_lt_is_Some_2 _ _ Hi) as [v Hv].
  rewrite (moveCity_inside i j v) by done. rewrite reorderCities_returns.
  eexists. split; [done|]. simpl.
  set (rest := delete i (cities w)).
  assert (Hrest : length rest = length (cities w) - 1).
  { unfold rest. rewrite length_delete by eauto. done. }
  assert (Hpre : length (take j rest) = j) by (rewrite length_take; lia).
  assert (Hat : (take j rest ++ v :: drop j rest) !! j = Some v).
  { by apply list_lookup_middle. }
  assert (Hdel : delete j (take j rest ++ v :: drop j rest) = rest).
  { rewrite <- Hpre at 1. by rewrite delete_middle, take_drop. }
  split; [by rewrite Hat, Hv|]. split; [done|].
  assert (Hperm : take j rest ++ v :: drop j rest ≡ₚ cities w).
  { rewrite <- Permutation_middle, take_drop. unfold rest.
    rewrite <- (take_drop_middle _ _ _ Hv) at 2.
    by rewrite delete_take_drop, <- Permutation_middle. }
  split; [by rewrite Hperm|]. done.
Qed.

Lemma moveCity_within_the_array_witness :
  ∃ w', UseCities.moveCity 2 0 (UseCities.useCities (Some three_cities) frozen)
        = Returns tt w' ∧
        cities w' !! 0 = Some (VCity tokyo) ∧
        delete 0 (cities w') = [VCity london; VCity paris].
Proof.
  destruct (moveCity_within_the_array 2 0
              (UseCities.useCities (Some three_cities) frozen))
    as (w' & Hrun & Hat & Hrest & _).
  - vm_compute. lia.
  - vm_compute. lia.
  - exists w'. split; [exact Hrun|]. by rewrite Hat, Hrest.
Defined.

(** X4: within the array a move is undone by the opposite move:
    [moveCity(i, j)] followed by [moveCity(j, i)] gives back the array as it
    was. *)
Theorem moveCity_there_and_back {N : Type} `{Number N} `{Show N} `{Host}
    (i j : nat) (w : World N) :
  i < length (cities w) →
  j < length (cities w) →
  ∃ w1 w2,
    UseCities.moveCity (Z.of_nat i) (Z.of_nat j) w = Returns tt w1 ∧
    UseCities.moveCity (Z.of_nat j) (Z.of_nat i) w1 = Returns tt w2 ∧
    cities w2 = cities w ∧
    selectedCities w2 = selectedCities w.
Proof.
  intros Hi Hj. destruct (lookup_lt_is_Some_2 _ _ Hi) as [v Hv].
  set (rest := delete i (cities w)).
  assert (Hrest : length rest = length (cities w) - 1).
  { unfold rest. rewrite length_delete by eauto. done. }
  assert (Hpre : length (take j rest) = j) by (rewrite length_take; lia).
  assert (Hlen : length (take j rest ++ v :: drop j rest) = length (cities w)).
  { rewrite length_app, Hpre. simpl. rewrite length_drop. lia. }
  eexists _, _. split.
  { rewrite (moveCity_inside i j v) by done. apply reorderCities_returns. }
  split.
  { rewrite (moveCity_inside j i v); simpl; fold rest.
    - apply reorderCities_returns.
    - by apply list_lookup_middle.
    - by rewrite Hlen. }
  simpl. fold rest. split; [|done].
  assert (Hdel : delete j (take j rest ++ v :: drop j rest) = rest).
  { rewrite <- Hpre at 1. by rewrite delete_middle, take_drop. }
  rewrite Hdel. by apply take_drop_delete.
Qed.

Lemma moveCity_there_and_back_witness :
  ∃ w1 w2,
    UseCities.moveCity 0 2 (UseCities.useCities (Some three_cities) frozen)
    = Returns tt w1 ∧
    UseCities.moveCity 2 0 w1 = Returns tt w2 ∧
    cities w2 = three_cities.
Proof.
  destruct (moveCity_there_and_back 0 2
              (UseCities.useCities (Some three_cities) frozen))
    as (w1 & w2 & Hfirst & Hsecond & Hcities & _).
  - vm_compute. lia.
  - vm_compute. lia.
  - exists w1, w2. split; [exact Hfirst|]. split; [exact Hsecond|exact Hcities].
Defined.

(** ** Scans of an array with a hole, and of an array of cities *)

Section Scans.

Context {N : Type} `{Number N} `{Show N} `{Host}.

Lemma filter_other_id_hole (cityId : string) (cs : list (value N)) :
  ¬ Forall is_city cs → filter_other_id cityId cs = None.
Proof.
  induction cs as [|v cs IH]; intros Hhole.
  - destruct Hhole. constructor.
  - destruct v as [c| |]; [|done..]. simpl. rewrite IH; [done|].
    intros Hcs. apply Hhole. by constructor.
Qed.

Lemma map_id_hole (cs : list (value N)) :
  ¬ Forall is_city cs → map_id cs = None.
Proof.
  induction cs as [|v cs IH]; intros Hhole.
  - destruct Hhole. constructor.
  - destruct v as [c| |]; [|done..]. simpl. rewrite IH; [done|].
    intros Hcs. apply Hhole. by constructor.
Qed.

Lemma filter_selected_hole (selected : list string) (cs : list (value N)) :
  ¬ Forall is_city cs → CityReads.filter_selected selected cs = None.
Proof.
  induction cs as [|v cs IH]; intros Hhole.
  - destruct Hhole. constructor.
  - destruct v as [c| |]; [|done..]. simpl. rewrite IH; [done|].
    intros Hcs. apply Hhole. by constructor.
Qed.

Lemma filter_selected_cities (selected : list string) (cs : list (value N)) :
  Forall is_city cs →
  CityReads.filter_selected selected cs = Some (filter (selected_by selected) cs).
Proof.
  induction 1 as [|v cs Hv _ IH]; [done|].
  destruct v as [c| |]; try done. simpl. rewrite IH. simpl.
  rewrite filter_cons. simpl. case_bool_decide.
  - by rewrite decide_True.
  - by rewrite decide_False.
Qed.

Lemma map_id_cities (cs : list (value N)) :
  Forall is_city cs →
  ∃ l, map_id cs = Some l ∧
       ∀ id, id ∈ l ↔ ∃ c, VCity c ∈ cs ∧ City.id c = id.
Proof.
  induction 1 as [|v cs Hv _ (l & IH & Hl)].
  - exists []. split; [done|]. intros id. split.
    + by intros ?%elem_of_nil.
    + by intros (c & ?%elem_of_nil & _).
  - destruct v as [c| |]; try done. simpl. rewrite IH. simpl.
    eexists. split; [done|]. intros id. rewrite elem_of_cons, Hl. split.
    + intros [->|(c' & Hc' & Hid)].
      * exists c. split; [apply list_elem_of_here|done].
      * exists c'. split; [by apply list_elem_of_further|done].
    + intros (c' & [[= ->]|Hc']%elem_of_cons & Hid); [by left|].
      right. by exists c'.
Qed.

Lemma find_id_absent (cityId : string) (cs : list (value N)) :
  Forall is_city cs →
  (∀ c, VCity c ∈ cs → City.id c ≠ cityId) →
  CityReads.find_id cityId cs = Some None.
Proof.
  induction 1 as [|v cs Hv _ IH]; intros Habsent; [done|].
  destruct v as [c| |]; try done. simpl.
  destruct (String.eqb_spec (City.id c) cityId) as [Heq|_].
  - destruct (Habsent c); [apply list_elem_of_here|done].
  - apply IH. intros c' Hc'. by apply Habsent, list_elem_of_further.
Qed.

End Scans.

(** X5: while the array holds an element that is not a city (the
    [undefined] that [moveCity] inserts when [fromIndex] is beyond the end,
    or the [null] it comes back as from local storage), [removeCity],
    [selectAllCities] and [getSelectedCityObjects] throw, for every
    argument, and leave the state as it was.  [reorderCities] reads no
    element and still returns: given an array of cities it replaces the
    array in memory and the one in local storage, and the element is gone
    with them. *)
Theorem hole_breaks_the_collection {N : Type} `{Number N} `{Show N} `{Host}
    (cityId : string) (newOrder : list (value N)) (w : World N) :
  ¬ Forall is_city (cities w) →
  UseCities.removeCity cityId w = Throws w ∧
  UseCities.selectAllCities w = Throws w ∧
  CityReads.getSelectedCityObjects w = Throws w ∧
  (Forall is_city newOrder →
   ∃ w', UseCities.reorderCities newOrder w = Returns tt w' ∧
         cities w' = newOrder ∧
         saved w' = newOrder ∧
         Forall is_city (cities w')).
Proof.
  intros Hhole. split; [|split; [|split]].
  - enter UseCities.removeCity. unfold or_throw.
    by rewrite filter_other_id_hole.
  - enter UseCities.selectAllCities. unfold or_throw. by rewrite map_id_hole.
  - enter CityReads.getSelectedCityObjects. unfold or_throw.
    by rewrite filter_selected_hole.
  - intros Horder.
    destruct (reorderCities_persists newOrder w Horder) as (w' & Hrun & Hc & Hs).
    exists w'. split; [done|]. split; [done|]. rewrite Hs, Hc. done.
Qed.

Lemma hole_breaks_the_collection_witness :
  ∃ w w', UseCities.moveCity 3 1 (UseCities.useCities (Some three_cities) frozen)
          = Returns tt w ∧
          UseCities.removeCity (City.id paris) w = Throws w ∧
          UseCities.selectAllCities w = Throws w ∧
          CityReads.getSelectedCityObjects w = Throws w ∧
          UseCities.reorderCities three_cities w = Returns tt w' ∧
          cities w' = three_cities ∧
          saved w' = three_cities.
Proof.
  set (w := {| cities := [VCity london; VUndefined; VCity paris; VCity tokyo];
               selectedCities := [];
               localStorage := Some [VCity london; VNull; VCity paris; VCity tokyo];
               clock := frozen; reads := 0 |} : World Q).
  destruct (hole_breaks_the_collection (City.id paris) three_cities w)
    as (Hremove & Hselect & Hobjects & Hreorder).
  { intros Hall. apply Forall_cons in Hall as [_ Hall].
    by apply Forall_cons in Hall as [Hhole _]. }
  destruct Hreorder as (w' & Hrun & Hcities & Hsaved & _).
  { repeat constructor. }
  exists w, w'. split; [reflexivity|]. done.
Defined.

(** X6: on an array of cities [selectAllCities] selects exactly the ids of
    its cities: [isCitySelected] then answers true for each of them,
    [getSelectedCityObjects] returns the whole array in its order, and every
    selected id is the id of a city. *)
Theorem selectAllCities_selects_every_city {N : Type} `{Number N} `{Show N} `{Host}
    (w : World N) :
  Forall is_city (cities w) →
  ∃ w',
    UseCities.selectAllCities w = Returns tt w' ∧
    cities w' = cities w ∧
    (∀ c, VCity c ∈ cities w →
          UseCities.isCitySelected (City.id c) w' = Returns true w') ∧
    CityReads.getSelectedCityObjects w' = Returns (cities w) w' ∧
    selection_within w'.
Proof.
  intros Hcities. destruct (map_id_cities (cities w) Hcities) as (l & Hl & Hin).
  enter UseCities.selectAllCities. unfold or_throw. rewrite Hl.
  eexists. split; [done|]. simpl. split; [done|]. split; [|split].
  - intros c Hc. enter UseCities.isCitySelected. simpl.
    rewrite bool_decide_eq_true_2; [done|]. apply Hin. by exists c.
  - enter CityReads.getSelectedCityObjects. unfold or_throw. simpl.
    rewrite filter_selected_cities by done. f_equal.
    apply filter_all. intros v Hv.
    pose proof (proj1 (Forall_forall _ _) Hcities v Hv) as Hcity.
    destruct v as [c| |]; try done. simpl. apply Hin. by exists c.
  - intros id Hid. simpl in *. by apply Hin.
Qed.

Lemma selectAllCities_selects_every_city_witness :
  ∃ w', UseCities.selectAllCities (UseCities.useCities (Some three_cities) frozen)
        = Returns tt w' ∧
        CityReads.getSelectedCityObjects w' = Returns three_cities w'.
Proof.
  destruct (selectAllCities_selects_every_city
              (UseCities.useCities (Some three_cities) frozen))
    as (w' & Hrun & _ & _ & Hobjects & _).
  - repeat constructor.
  - exists w'. split; [exact Hrun|exact Hobjects].
Defined.

Section Selection.

Context {N : Type} `{Number N} `{Show N} `{Host}.


Lemma getSelectedCityObjects_filters (w : World N) :
  Forall is_city (cities w) →
  CityReads.getSelectedCityObjects w
  = Returns (filter (selected_by (selectedCities w)) (cities w)) w.
Proof.
  intros Hcities. enter CityReads.getSelectedCityObjects. unfold or_throw.
  by rewrite filter_selected_cities.
Qed.

End Selection.



(** X8: after [removeCity] on a collection of cities the id is gone:
    [getCityById] returns [undefined] for it, [isCitySelected] answers
    false, and a second [removeCity] of the same id changes nothing. *)
Theorem removeCity_forgets_the_id {N : Type} `{Number N} `{Show N} `{Host}
    (cityId : string) (w : World N) :
  Forall is_city (cities w) →
  Forall is_city (saved w) →
  ∃ w',
    UseCities.removeCity cityId w = Returns tt w' ∧
    CityReads.getCityById cityId w' = Returns None w' ∧
    UseCities.isCitySelected cityId w' = Returns false w' ∧
    UseCities.removeCity cityId w' = Returns tt w'.
Proof.
  intros Hcities Hsaved. rewrite removeCity_filters by done.
  eexists. split; [done|]. split; [|split].
  - enter CityReads.getCityById. unfold or_throw. simpl.
    rewrite find_id_absent; [done|by apply Forall_is_city_filter|].
    intros c [Hc _]%list_elem_of_filter. done.
  - enter UseCities.isCitySelected. simpl.
    rewrite bool_decide_eq_false_2; [done|].
    intros [Hne _]%list_elem_of_filter. done.
  - rewrite removeCity_filters; simpl.
    + unfold saved. simpl.
      rewrite !list_filter_filter_l by done. done.
    + by apply Forall_is_city_filter.
    + unfold saved. simpl. by apply Forall_is_city_filter.
Qed.

Lemma removeCity_forgets_the_id_witness :
  ∃ w', UseCities.removeCity (City.id paris)
          (UseCities.useCities (Some three_cities) frozen) = Returns tt w' ∧
        CityReads.getCityById (City.id paris) w' = Returns None w'.
Proof.
  destruct (removeCity_forgets_the_id (City.id paris)
              (UseCities.useCities (Some three_cities) frozen))
    as (w' & Hrun & Hfind & _).
  - repeat constructor.
  - repeat constructor.
  - exists w'. split; [exact Hrun|exact Hfind].
Defined.

(** X9: [getSelectedCityObjects] returns the selected cities in the order
    of the array, whatever the order of the selection and however often an
    id occurs in it: two selections with the same ids give the same
    result, which is a sublist of the array holding the cities whose id is
    selected. *)
Theorem getSelectedCityObjects_in_array_order {N : Type} `{Number N} `{Show N} `{Host}
    (w w' : World N) :
  Forall is_city (cities w) →
  cities w' = cities w →
  (∀ id, id ∈ selectedCities w' ↔ id ∈ selectedCities w) →
  ∃ objects,
    CityReads.getSelectedCityObjects w = Returns objects w ∧
    CityReads.getSelectedCityObjects w' = Returns objects w' ∧
    objects `sublist_of` cities w ∧
    ∀ c, VCity c ∈ objects ↔ VCity c ∈ cities w ∧ City.id c ∈ selectedCities w.
Proof.
  intros Hcities Hsame Hids.
  exists (filter (selected_by (selectedCities w)) (cities w)).
  split; [by apply getSelectedCityObjects_filters|]. split; [|split].
  - rewrite getSelectedCityObjects_filters by by rewrite Hsame.
    rewrite Hsame. f_equal. apply list_filter_iff.
    intros [c| |]; simpl; [apply Hids|done..].
  - apply sublist_filter.
  - intros c. rewrite list_elem_of_filter. simpl. tauto.
Qed.

Lemma getSelectedCityObjects_in_array_order_witness :
  ∃ objects,
    CityReads.getSelectedCityObjects
      {| cities := three_cities; selectedCities := [City.id tokyo; City.id london];
         localStorage := None; clock := frozen; reads := 0 |}
    = Returns objects
      {| cities := three_cities; selectedCities := [City.id tokyo; City.id london];
         localStorage := None; clock := frozen; reads := 0 |} ∧
    objects `sublist_of` three_cities.
Proof.
  destruct (getSelectedCityObjects_in_array_order
    {| cities := three_cities; selectedCities := [City.id tokyo; City.id london];
       localStorage := None; clock := frozen; reads := 0 |}
    {| cities := three_cities; selectedCities := [City.id london; City.id tokyo];
       localStorage := None; clock := frozen; reads := 0 |})
    as (objects & Hrun & _ & Hsub & _).
  - repeat constructor.
  - reflexivity.
  - intros id. simpl. rewrite !elem_of_cons. tauto.
  - exists objects. split; [exact Hrun|exact Hsub].
Defined.

(** X10: on an array of cities, [removeCity] (from a state in which
    local storage holds the array), [reorderCities] with an array of
    cities and [moveCity] from a position of the array leave in local
    storage the array they leave in memory; and [reloadCities] makes the
    array in memory the stored one. *)
Theorem memory_matches_storage {N : Type} `{Number N} `{Show N} `{Host}
    (w : World N) :
  Forall is_city (cities w) →
  (∀ cityId, saved w = cities w →
     ∃ w', UseCities.removeCity cityId w = Returns tt w' ∧ saved w' = cities w') ∧
  (∀ newOrder, Forall is_city newOrder →
     ∃ w', UseCities.reorderCities newOrder w = Returns tt w' ∧
           cities w' = newOrder ∧ saved w' = newOrder) ∧
  (∀ fromIndex toIndex, (0 ≤ fromIndex < Z.of_nat (length (cities w)))%Z →
     ∃ w', UseCities.moveCity fromIndex toIndex w = Returns tt w' ∧
           saved w' = cities w') ∧
  (∃ w', UseCities.reloadCities w = Returns tt w' ∧
         cities w' = saved w ∧ saved w' = saved w).
Proof.
  intros Hcities. split; [|split; [|split]].
  - intros cityId Hsaved. by apply removeCity_persists.
  - intros newOrder Horder.
    destruct (reorderCities_persists newOrder w Horder) as (w' & Hrun & Hc & Hs).
    exists w'. split; [done|]. split; [done|]. by rewrite Hs.
  - intros fromIndex toIndex Hfrom.
    destruct (moveCity_persists fromIndex toIndex w Hcities Hfrom)
      as (w' & Hrun & _ & Hs).
    by exists w'.
  - eexists. split; [reflexivity|]. done.
Qed.

Lemma memory_matches_storage_witness :
  ∃ w', UseCities.moveCity 0 2 (UseCities.useCities (Some three_cities) frozen)
        = Returns tt w' ∧ saved w' = cities w'.
Proof.
  destruct (memory_matches_storage (UseCities.useCities (Some three_cities) frozen))
    as (_ & _ & Hmove & _).
  - repeat constructor.
  - apply (Hmove 0%Z 2%Z). vm_compute. split; [discriminate|reflexivity].
Defined.

(** X11: removing the city that [addCity] has just added, by the id it
    has in memory, gives back the array in memory.  Local storage is given
    back too when the clock has not moved between the two stampings of the
    city, the one of the composable and the one of the storage module;
    when it has, the stored copy carries another id, [removeCity] does not
    find it, and the city stays in local storage. *)
Theorem addCity_then_removeCity {N : Type} `{Number N} `{Show N} `{Host}
    (city : City.t N) (w : World N) :
  let inMemory := stamp city (clock w (reads w)) (clock w (S (reads w))) in
  let stored :=
    stamp city (clock w (S (S (reads w)))) (clock w (S (S (S (reads w))))) in
  length (cities w) < UseCities.maxCities →
  Forall is_city (cities w) →
  saved w = cities w →
  (∀ c, VCity c ∈ cities w → same_place city c = false) →
  (∀ c, VCity c ∈ cities w → City.id c ≠ City.id inMemory) →
  ∃ w1 w2,
    UseCities.addCity city w = Returns true w1 ∧
    UseCities.removeCity (City.id inMemory) w1 = Returns tt w2 ∧
    cities w2 = cities w ∧
    (clock w (S (S (reads w))) = clock w (reads w) → saved w2 = cities w) ∧
    (clock w (S (S (reads w))) ≠ clock w (reads w) →
     saved w2 = cities w ++ [VCity stored]).
Proof.
  intros inMemory stored Hroom Hcities Hsaved Hnew Hfresh.
  assert (Hkeep : filter (λ v, ¬ has_id (City.id inMemory) v) (cities w) = cities w).
  { apply filter_all. intros [c| |] Hc; simpl; [by apply Hfresh|tauto..]. }
  pose proof (addCity_returns city w Hroom Hcities Hsaved Hnew) as Hadd.
  fold inMemory stored in Hadd.
  set (w1 := {| cities := cities w ++ [VCity inMemory];
                selectedCities := selectedCities w;
                localStorage := Some (cities w ++ [VCity stored]);
                clock := clock w;
                reads := S (S (S (S (reads w)))) |}) in Hadd.
  assert (Hc1 : Forall is_city (cities w1)).
  { apply Forall_app. split; [done|]. by repeat constructor. }
  assert (Hs1 : Forall is_city (saved w1)).
  { apply Forall_app. split; [done|]. by repeat constructor. }
  pose proof (removeCity_filters (City.id inMemory) w1 Hc1 Hs1) as Hremove.
  eexists _, _. split; [exact Hadd|]. split; [exact Hremove|].
  unfold saved. cbn [cities localStorage w1]. rewrite !filter_app, Hkeep.
  split; [|split].
  - rewrite filter_cons_False, filter_nil, app_nil_r; [done|].
    cbn [has_id]. tauto.
  - intros Hsame.
    rewrite filter_cons_False, filter_nil, app_nil_r; [done|].
    cbn [has_id]. unfold stored, inMemory. simpl. rewrite Hsame. tauto.
  - intros Htick.
    rewrite filter_cons_True; [done|]. cbn [has_id]. intros Hid.
    by apply stamp_id_inj in Hid.
Qed.

Lemma addCity_then_removeCity_witness :
  ∃ w1 w2,
    UseCities.addCity rome (UseCities.useCities (Some three_cities) ticking)
    = Returns true w1 ∧
    UseCities.removeCity "41.9-12.5-1717200000000" w1 = Returns tt w2 ∧
    cities w2 = three_cities ∧
    ids (saved w2)
    = ids three_cities ++ [Some "41.9-12.5-1717200000001"].
Proof.
  destruct (addCity_then_removeCity rome
              (UseCities.useCities (Some three_cities) ticking))
    as (w1 & w2 & Hadd & Hremove & Hcities & _ & Hstored).
  - vm_compute. lia.
  - repeat constructor.
  - reflexivity.
  - intros c Hc. simpl in Hc.
    repeat (apply elem_of_cons in Hc as [[= ->]|Hc]; [reflexivity|]).
    by apply elem_of_nil in Hc.
  - intros c Hc. simpl in Hc.
    repeat (apply elem_of_cons in Hc as [[= ->]|Hc]; [vm_compute; discriminate|]).
    by apply elem_of_nil in Hc.
  - exists w1, w2. split; [exact Hadd|]. split; [exact Hremove|].
    split; [exact Hcities|]. rewrite Hstored; [reflexivity|].
    vm_compute. discriminate.
Defined.

(** * Preferences, layout and search history *)

Lemma omap_id_fmap_Some {V} (m : gmap string V) : omap id (Some <$> m) = m.
Proof.
  apply map_eq. intros k. rewrite lookup_omap, lookup_fmap.
  by destruct (m !! k).
Qed.

Section SettingsProperties.

Context {N : Type} `{Number N} `{Show N} `{Host}.

Lemma getPreferences_lookup (d : Disk N) (k : string) :
  Settings.getPreferences d !! k
  = match preferences d with
    | Text prefs =>
        match prefs !! k with
        | Some v => Some v
        | None => Settings.DEFAULT_PREFERENCES !! k
        end
    | Absent | Unparsable => Settings.DEFAULT_PREFERENCES !! k
    end.
Proof.
  unfold Settings.getPreferences, spread.
  destruct (preferences d) as [|prefs|]; [done| |done].
  rewrite lookup_union.
  by destruct (prefs !! k), (Settings.DEFAULT_PREFERENCES !! k).
Qed.

Lemma getPreferences_default (d : Disk N) (k : string) :
  Settings.getPreferences d !! k = None →
  Settings.DEFAULT_PREFERENCES !! k = None.
Proof.
  rewrite getPreferences_lookup.
  destruct (preferences d) as [|prefs|]; [done| |done].
  by destruct (prefs !! k).
Qed.

Lemma savePreferences_lookup (prefs : object N) (d : Disk N) (k : string) :
  Settings.getPreferences (Settings.savePreferences prefs d) !! k
  = match prefs !! k with
    | Some (Some v) => Some v
    | Some None => Settings.DEFAULT_PREFERENCES !! k
    | None => Settings.getPreferences d !! k
    end.
Proof.
  rewrite getPreferences_lookup. simpl. unfold JSON_object, spread.
  rewrite lookup_omap, lookup_union, lookup_fmap.
  destruct (prefs !! k) as [[v|]|] eqn:Hk; simpl.
  - by destruct (Settings.getPreferences d !! k).
  - by destruct (Settings.getPreferences d !! k).
  - destruct (Settings.getPreferences d !! k) eqn:Hcurrent; simpl; [done|].
    by apply getPreferences_default in Hcurrent.
Qed.

End SettingsProperties.

(** X12: whatever local storage holds under the preferences key
    (nothing, the text of an object, a text that does not parse),
    [getPreferences] returns an object with every key of
    [DEFAULT_PREFERENCES]; a key the stored object has carries the stored
    value, and without a stored object the result is the defaults. *)
Theorem getPreferences_has_every_default {N : Type} `{Number N} `{Show N} `{Host}
    (d : Disk N) :
  (∀ k, is_Some (Settings.DEFAULT_PREFERENCES (N:=N) !! k) →
        is_Some (Settings.getPreferences d !! k)) ∧
  (∀ prefs k v, preferences d = Text prefs → prefs !! k = Some v →
                Settings.getPreferences d !! k = Some v) ∧
  (∀ prefs k, preferences d = Text prefs → prefs !! k = None →
              Settings.getPreferences d !! k
              = Settings.DEFAULT_PREFERENCES !! k) ∧
  (preferences d = Absent ∨ preferences d = Unparsable →
   Settings.getPreferences d = Settings.DEFAULT_PREFERENCES).
Proof.
  split; [|split; [|split]].
  - intros k Hk. rewrite getPreferences_lookup.
    destruct (preferences d) as [|prefs|]; [done| |done].
    by destruct (prefs !! k).
  - intros prefs k v Hd Hk. by rewrite getPreferences_lookup, Hd, Hk.
  - intros prefs k Hd Hk. by rewrite getPreferences_lookup, Hd, Hk.
  - unfold Settings.getPreferences. by intros [-> | ->].
Qed.

Lemma getPreferences_has_every_default_witness :
  Settings.getPreferences (N:=Q)
    {| preferences := Text {[ "theme" := Json.String "light" ]};
       layout := Absent; searchHistory := Absent |} !! "theme"
  = Some (Json.String "light") ∧
  is_Some (Settings.getPreferences (N:=Q)
    {| preferences := Text {[ "theme" := Json.String "light" ]};
       layout := Absent; searchHistory := Absent |} !! "refreshInterval").
Proof.
  destruct (getPreferences_has_every_default (N:=Q)
    {| preferences := Text {[ "theme" := Json.String "light" ]};
       layout := Absent; searchHistory := Absent |}) as (Hall & Hstored & _).
  split.
  - apply (Hstored {[ "theme" := Json.String "light" ]}); reflexivity.
  - apply Hall. vm_compute. eauto.
Defined.

(** X13: what [getPreferences] returns after [savePreferences]: a key
    given with a value has that value, the other keys keep what
    [getPreferences] returned before, and a key given with the value
    [undefined] is dropped from the stored object, so that it reads as its
    default again (or is absent, when it has none).  The layout and the
    search history are not touched. *)
Theorem savePreferences_then_getPreferences {N : Type} `{Number N} `{Show N} `{Host}
    (prefs : object N) (d : Disk N) :
  (∀ k, Settings.getPreferences (Settings.savePreferences prefs d) !! k
        = match prefs !! k with
          | Some (Some v) => Some v
          | Some None => Settings.DEFAULT_PREFERENCES !! k
          | None => Settings.getPreferences d !! k
          end) ∧
  layout (Settings.savePreferences prefs d) = layout d ∧
  searchHistory (Settings.savePreferences prefs d) = searchHistory d.
Proof.
  split; [|done]. intros k.
  rewrite getPreferences_lookup. cbn [preferences Settings.savePreferences].
  unfold JSON_object, spread.
  rewrite lookup_omap, lookup_union, lookup_fmap.
  destruct (prefs !! k) as [[v|]|] eqn:Hk; simpl.
  - by destruct (Settings.getPreferences d !! k).
  - by destruct (Settings.getPreferences d !! k).
  - destruct (Settings.getPreferences d !! k) eqn:Hcurrent; simpl; [done|].
    by apply getPreferences_default in Hcurrent.
Qed.

(** X14: saving the same preferences a second time changes nothing in
    local storage, and saving what [getPreferences] returns, or the empty
    object, changes nothing in what [getPreferences] returns. *)
Theorem savePreferences_idempotent {N : Type} `{Number N} `{Show N} `{Host}
    (prefs : object N) (d : Disk N) :
  Settings.savePreferences prefs (Settings.savePreferences prefs d)
  = Settings.savePreferences prefs d ∧
  Settings.getPreferences
    (Settings.savePreferences (Some <$> Settings.getPreferences d) d)
  = Settings.getPreferences d ∧
  Settings.getPreferences (Settings.savePreferences ∅ d)
  = Settings.getPreferences d.
Proof.
  split; [|split].
  - unfold Settings.savePreferences at 1 3. f_equal. f_equal.
    apply map_eq. intros k. unfold JSON_object, spread.
    rewrite !lookup_omap, !lookup_union, !lookup_fmap.
    pose proof (savePreferences_lookup prefs d k) as Hsaved.
    destruct (prefs !! k) as [[v|]|] eqn:Hk; simpl.
    + by destruct (Settings.getPreferences _ !! k),
                  (Settings.getPreferences d !! k).
    + by destruct (Settings.getPreferences _ !! k),
                  (Settings.getPreferences d !! k).
    + by rewrite Hsaved.
  - apply map_eq. intros k. rewrite savePreferences_lookup, lookup_fmap.
    by destruct (Settings.getPreferences d !! k).
  - apply map_eq. intros k. by rewrite savePreferences_lookup, lookup_empty.
Qed.

(** ** The search history *)

Section HistoryProperties.

Context {N : Type} `{Number N} `{Show N} `{Host}.

Lemma distinct_searches_sublist (history history' : list (Search.t N)) :
  history' `sublist_of` history →
  distinct_searches history → distinct_searches history'.
Proof.
  induction 1 as [|item l1 l2 Hsub IH|item l1 l2 Hsub IH]; simpl; [done|..].
  - intros [Hitem Hrest]. split; [|by apply IH].
    intros older Holder. apply Hitem. by eapply elem_of_sublist.
  - intros [_ Hrest]. by apply IH.
Qed.

Lemma addToSearchHistory_returns (city : City.t N) (d : Disk N) (w : World N) :
  Settings.addToSearchHistory city d w
  = Returns
      (Settings.set_searchHistory
         (Text ({| Search.city := city;
                   Search.searchedAt := toISOString (clock w (reads w)) |}
                :: take 9 (filter (λ item, same_place city (Search.city item) = false)
                             (Settings.getSearchHistory d))))
         d)
      {| cities := cities w; selectedCities := selectedCities w;
         localStorage := localStorage w; clock := clock w;
         reads := S (reads w) |}.
Proof. reflexivity. Qed.

Lemma getSearchHistory_set (history : list (Search.t N)) (d : Disk N) :
  Settings.getSearchHistory (Settings.set_searchHistory (Text history) d)
  = history.
Proof. reflexivity. Qed.

End HistoryProperties.

(** X15: after [addToSearchHistory] the history starts with the city
    searched, stamped with the time on the clock; it has at most ten
    items, whatever it held before; the items after the first are items of
    the old history, in their old order, none of them at the place of the
    city searched; and preferences and layout are as they were. *)
Theorem addToSearchHistory_puts_city_first {N : Type} `{Number N} `{Show N} `{Host}
    (city : City.t N) (d : Disk N) (w : World N) :
  ∃ d' w',
    Settings.addToSearchHistory city d w = Returns d' w' ∧
    Settings.getSearchHistory d' !! 0
    = Some {| Search.city := city;
              Search.searchedAt := toISOString (clock w (reads w)) |} ∧
    length (Settings.getSearchHistory d') ≤ 10 ∧
    tail (Settings.getSearchHistory d') `sublist_of` Settings.getSearchHistory d ∧
    (∀ item, item ∈ tail (Settings.getSearchHistory d') →
             same_place city (Search.city item) = false) ∧
    preferences d' = preferences d ∧
    layout d' = layout d.
Proof.
  eexists _, _. split; [apply addToSearchHistory_returns|]. simpl.
  split; [done|]. split; [rewrite length_take; lia|]. split; [|split; [|done]].
  - etrans; [apply sublist_take|apply sublist_filter].
  - intros item Hitem. apply elem_of_take in Hitem as (i & Hitem & _).
    apply list_elem_of_lookup_2 in Hitem.
    by apply list_elem_of_filter in Hitem as [Hitem _].
Qed.

(** X16: a history with at most one item for a place keeps that property
    under [addToSearchHistory]: the older item for the place searched is
    taken out when the new one is put in front. *)
Theorem addToSearchHistory_keeps_places_distinct
    {N : Type} `{Number N} `{Show N} `{Host}
    (city : City.t N) (d : Disk N) (w : World N) :
  distinct_searches (Settings.getSearchHistory d) →
  ∃ d' w',
    Settings.addToSearchHistory city d w = Returns d' w' ∧
    distinct_searches (Settings.getSearchHistory d').
Proof.
  intros Hdistinct.
  eexists _, _. split; [apply addToSearchHistory_returns|]. simpl. split.
  - intros older Holder. apply elem_of_take in Holder as (i & Holder & _).
    apply list_elem_of_lookup_2 in Holder.
    by apply list_elem_of_filter in Holder as [Holder _].
  - eapply distinct_searches_sublist; [|done].
    etrans; [apply sublist_take|apply sublist_filter].
Qed.

(** X17: searching the same city twice in a row leaves the history the
    first search made, but for the time of its first item; this for a city
    whose coordinates are equal to themselves under [===]. *)
Theorem addToSearchHistory_twice {N : Type} `{Number N} `{Show N} `{Host}
    (city : City.t N) (d : Disk N) (w : World N) :
  same_place city city = true →
  ∃ d1 w1 d2 w2,
    Settings.addToSearchHistory city d w = Returns d1 w1 ∧
    Settings.addToSearchHistory city d1 w1 = Returns d2 w2 ∧
    tail (Settings.getSearchHistory d2) = tail (Settings.getSearchHistory d1) ∧
    Search.city <$> Settings.getSearchHistory d2
    = Search.city <$> Settings.getSearchHistory d1.
Proof.
  intros Hself.
  eexists _, _, _, _. split; [apply addToSearchHistory_returns|].
  split; [apply addToSearchHistory_returns|].
  rewrite !getSearchHistory_set.
  rewrite filter_cons_False by (simpl; congruence).
  rewrite filter_all.
  - rewrite take_take. by replace (9 `min` 9) with 9 by lia.
  - intros item Hitem. apply elem_of_take in Hitem as (i & Hitem & _).
    apply list_elem_of_lookup_2 in Hitem.
    by apply list_elem_of_filter in Hitem as [Hitem _].
Qed.

Lemma addToSearchHistory_keeps_places_distinct_witness :
  ∃ d' w',
    Settings.addToSearchHistory london sample_disk
      (UseCities.useCities None frozen) = Returns d' w' ∧
    distinct_searches (Settings.getSearchHistory d').
Proof.
  apply (addToSearchHistory_keeps_places_distinct london sample_disk
           (UseCities.useCities None frozen)).
  simpl. split; [|split; [|done]].
  - intros older Holder. apply list_elem_of_singleton in Holder as ->. reflexivity.
  - intros older Holder. by apply elem_of_nil in Holder.
Defined.

Lemma addToSearchHistory_twice_witness :
  ∃ d1 w1 d2 w2,
    Settings.addToSearchHistory london sample_disk
      (UseCities.useCities None frozen) = Returns d1 w1 ∧
    Settings.addToSearchHistory london d1 w1 = Returns d2 w2 ∧
    Search.city <$> Settings.getSearchHistory d2 = [london; paris].
Proof.
  destruct (addToSearchHistory_twice london sample_disk
              (UseCities.useCities None frozen))
    as (d1 & w1 & d2 & w2 & Hfirst & Hsecond & _ & Hcities).
  - reflexivity.
  - exists d1, w1, d2, w2. split; [exact Hfirst|]. split; [exact Hsecond|].
    rewrite Hcities.
    injection Hfirst as <- _. reflexivity.
Defined.

(** ** Backup *)

Lemma JSON_roundtrip_parsed {N} (cs : list (value N)) :
  VUndefined ∉ cs → JSON_roundtrip cs = cs.
Proof.
  unfold JSON_roundtrip. induction cs as [|v cs IH]; [done|].
  intros [Hv Hcs]%not_elem_of_cons. rewrite fmap_cons, IH by done.
  by destruct v.
Qed.

(** X18: a backup survives [clearAllData].  After [exportData] and
    [clearAllData] the four entries of local storage are empty
    ([getSavedCities] returns the empty array, [getPreferences] the
    defaults, [getLayoutConfig] the default layout, [getSearchHistory] the
    empty array) while the array of the composable is untouched; and
    [importData] of the backup then makes each of the four getters return
    what it returned before the data was cleared (local storage holding
    what [JSON.parse] gave, no [undefined]). *)
Theorem backup_survives_clearAllData {N : Type} `{Number N} `{Show N} `{Host}
    (d : Disk N) (w : World N) :
  VUndefined ∉ saved w →
  ∃ data w1 d2 w2 d3 w3,
    Settings.exportData d w = Returns data w1 ∧
    Settings.clearAllData d w1 = Returns d2 w2 ∧
    Storage.getSavedCities w2 = Returns [] w2 ∧
    Settings.getPreferences d2 = Settings.DEFAULT_PREFERENCES ∧
    Settings.getLayoutConfig d2 = Settings.default_layout ∧
    Settings.getSearchHistory d2 = [] ∧
    cities w2 = cities w ∧
    Settings.importData data d2 w2 = Returns d3 w3 ∧
    Storage.getSavedCities w3 = Returns (saved w) w3 ∧
    Settings.getPreferences d3 = Settings.getPreferences d ∧
    Settings.getLayoutConfig d3 = Settings.getLayoutConfig d ∧
    Settings.getSearchHistory d3 = Settings.getSearchHistory d.
Proof.
  intros Hparsed.
  set (cleared := {| preferences := Absent; layout := Absent;
                     searchHistory := Absent |} : Disk N).
  exists {| Backup.cities := Some (saved w);
            Backup.preferences := Some (Some <$> Settings.getPreferences d);
            Backup.layout := Some (Some <$> Settings.getLayoutConfig d);
            Backup.searchHistory := Some (Settings.getSearchHistory d);
            Backup.exportedAt := Some (toISOString (clock w (reads w))) |}.
  eexists _, cleared, _.
  exists (Settings.set_searchHistory (Text (Settings.getSearchHistory d))
            (Settings.saveLayoutConfig (Some <$> Settings.getLayoutConfig d)
               (Settings.savePreferences (Some <$> Settings.getPreferences d)
                  cleared))).
  eexists.
  split; [reflexivity|]. split; [reflexivity|].
  do 5 (split; [reflexivity|]). split; [reflexivity|].
  split; [|split; [|split; [|done]]].
  - enter Storage.getSavedCities. simpl. by rewrite JSON_roundtrip_parsed.
  - change (Settings.getPreferences
              (Settings.savePreferences (Some <$> Settings.getPreferences d) cleared)
            = Settings.getPreferences d).
    apply map_eq. intros k. rewrite savePreferences_lookup, lookup_fmap.
    destruct (Settings.getPreferences d !! k) eqn:Hk; [done|].
    simpl. by apply getPreferences_default in Hk.
  - apply omap_id_fmap_Some.
Qed.

Lemma backup_survives_clearAllData_witness :
  ∃ data w1 d2 w2 d3 w3,
    Settings.exportData sample_disk (UseCities.useCities (Some three_cities) frozen)
    = Returns data w1 ∧
    Settings.clearAllData sample_disk w1 = Returns d2 w2 ∧
    Settings.importData data d2 w2 = Returns d3 w3 ∧
    Storage.getSavedCities w3 = Returns three_cities w3 ∧
    Settings.getSearchHistory d3 = Settings.getSearchHistory sample_disk.
Proof.
  destruct (backup_survives_clearAllData sample_disk
              (UseCities.useCities (Some three_cities) frozen))
    as (data & w1 & d2 & w2 & d3 & w3 & Hexport & Hclear & _ & _ & _ & _ & _
        & Himport & Hcities & _ & _ & Hhistory).
  - intros Hin. simpl in Hin.
    repeat (apply elem_of_cons in Hin as [Hin|Hin]; [discriminate Hin|]).
    by apply elem_of_nil in Hin.
  - exists data, w1, d2, w2, d3, w3. split; [exact Hexport|].
    split; [exact Hclear|]. split; [exact Himport|].
    split; [exact Hcities|exact Hhistory].
Defined.

(** X19: a backup made by [exportData] and given to [importData] brings
    back what the getters returned when it was made: the stored cities
    (local storage holding what [JSON.parse] gave, no [undefined]), the
    layout and the search history are those of the backup whatever the
    state it is imported into.  The preferences are merged into those of
    that state: every key of the backup has the value of the backup, and a
    key that only the state has keeps its value, so that the preferences
    are exactly those of the backup when the state was cleared first. *)
Theorem exportData_then_importData {N : Type} `{Number N} `{Show N} `{Host}
    (d d1 : Disk N) (w w1 : World N) :
  VUndefined ∉ saved w →
  ∃ data w' d2 w2,
    Settings.exportData d w = Returns data w' ∧
    Settings.importData data d1 w1 = Returns d2 w2 ∧
    saved w2 = saved w ∧
    Settings.getLayoutConfig d2 = Settings.getLayoutConfig d ∧
    Settings.getSearchHistory d2 = Settings.getSearchHistory d ∧
    (∀ k, Settings.getPreferences d2 !! k
          = match Settings.getPreferences d !! k with
            | Some v => Some v
            | None => Settings.getPreferences d1 !! k
            end) ∧
    (preferences d1 = Absent → Settings.getPreferences d2 = Settings.getPreferences d).
Proof.
  intros Hparsed. eexists _, _, _, _.
  split; [reflexivity|]. split; [reflexivity|]. simpl. fold (saved w).
  assert (Hkeys : ∀ k,
    Settings.getPreferences
      (Settings.savePreferences (Some <$> Settings.getPreferences d) d1) !! k
    = match Settings.getPreferences d !! k with
      | Some v => Some v
      | None => Settings.getPreferences d1 !! k
      end).
  { intros k. rewrite savePreferences_lookup, lookup_fmap.
    by destruct (Settings.getPreferences d !! k). }
  split; [by apply JSON_roundtrip_parsed|].
  split; [apply omap_id_fmap_Some|]. split; [done|]. split; [exact Hkeys|].
  intros Hcleared. apply map_eq. intros k.
  etrans; [apply Hkeys|].
  destruct (Settings.getPreferences d !! k) eqn:Hk; [done|].
  apply getPreferences_default in Hk.
  by rewrite getPreferences_lookup, Hcleared.
Qed.

Lemma exportData_then_importData_witness :
  ∃ data w' d2 w2,
    Settings.exportData sample_disk (UseCities.useCities (Some three_cities) frozen)
    = Returns data w' ∧
    Settings.importData data
      {| preferences := Absent; layout := Absent; searchHistory := Absent |}
      (UseCities.useCities None frozen) = Returns d2 w2 ∧
    saved w2 = three_cities ∧
    Settings.getPreferences d2 !! "theme" = Some (Json.String "light").
Proof.
  destruct (exportData_then_importData sample_disk
              {| preferences := Absent; layout := Absent; searchHistory := Absent |}
              (UseCities.useCities (Some three_cities) frozen)
              (UseCities.useCities None frozen))
    as (data & w' & d2 & w2 & Hexport & Himport & Hsaved & _ & _ & Hkeys & _).
  - intros Hin. simpl in Hin.
    repeat (apply elem_of_cons in Hin as [Hin|Hin]; [discriminate Hin|]).
    by apply elem_of_nil in Hin.
  - exists data, w', d2, w2. split; [exact Hexport|]. split; [exact Himport|].
    split; [exact Hsaved|]. rewrite Hkeys. reflexivity.
Defined.

(** * Wind direction and elapsed time *)

Lemma round_sector (deg : Q) :
  let n := Qfloor (Math_round (deg / (225 # 10))%Q) in
  ((225 # 10) * inject_Z n - (1125 # 100) <= deg)%Q ∧
  (deg < (225 # 10) * inject_Z n + (1125 # 100))%Q.
Proof.
  cbv zeta.
  change (Math_round (deg / (225 # 10))%Q) with (Exact.round (deg / (225 # 10))).
  unfold Exact.round. rewrite Qfloor_Z.
  set (q := (deg / (225 # 10))%Q).
  assert (Hq : (deg == q * (225 # 10))%Q) by (unfold q; field).
  pose proof (Qfloor_le (q + (1 # 2))) as Hlow.
  pose proof (Qlt_floor (q + (1 # 2))) as Hhigh.
  rewrite inject_Z_plus in Hhigh. change (inject_Z 1) with 1%Q in Hhigh.
  split; lra.
Qed.

Lemma directions_lookup (i : nat) : i < 16 → is_Some (directions !! i).
Proof. intros Hi. apply lookup_lt_is_Some_2. simpl. lia. Qed.

(** X20: for a direction of zero degrees or more, [getWindDirection]
    returns the compass point of the sixteen whose bearing is nearest: the
    point number i, the direction being within 11.25 degrees of 22.5 * i
    after some whole turns (the upper bound excluded). *)
Theorem getWindDirection_nearest_point (deg : Q) :
  (0 <= deg)%Q →
  ∃ (i : nat) (turns : Z),
    i < 16 ∧ (0 ≤ turns)%Z ∧
    getWindDirection deg = directions !! i ∧
    is_Some (getWindDirection deg) ∧
    ((225 # 10) * inject_Z (16 * turns + Z.of_nat i) - (1125 # 100) <= deg)%Q ∧
    (deg < (225 # 10) * inject_Z (16 * turns + Z.of_nat i) + (1125 # 100))%Q.
Proof.
  intros Hdeg. destruct (round_sector deg) as [Hlow Hhigh].
  unfold getWindDirection.
  set (n := Qfloor (Math_round (deg / (225 # 10))%Q)) in *.
  assert (Hn : (0 ≤ n)%Z).
  { destruct (Z.le_gt_cases 0 n) as [|Hneg]; [done|].
    assert (Hle : (inject_Z n <= inject_Z (-1))%Q) by (rewrite <- Zle_Qle; lia).
    change (inject_Z (-1)) with (-1)%Q in Hle. lra. }
  pose proof (Z.rem_bound_pos n 16 Hn eq_refl) as Hrem.
  pose proof (Z.quot_rem' n 16) as Hsplit.
  pose proof (Z.quot_pos n 16 Hn eq_refl) as Hquot.
  exists (Z.to_nat (Z.rem n 16)), (n ÷ 16)%Z.
  split; [lia|]. split; [done|].
  destruct (Z.ltb_spec (Z.rem n 16) 0) as [|_]; [lia|].
  split; [done|]. split; [apply directions_lookup; lia|].
  replace (16 * (n ÷ 16) + Z.of_nat (Z.to_nat (Z.rem n 16)))%Z with n by lia.
  done.
Qed.

Lemma getWindDirection_nearest_point_witness :
  (0 <= 350)%Q ∧ is_Some (getWindDirection 350).
Proof.
  assert (Hdeg : (0 <= 350)%Q) by (vm_compute; discriminate).
  split; [exact Hdeg|].
  destruct (getWindDirection_nearest_point 350 Hdeg)
    as (i & turns & _ & _ & _ & Hsome & _).
  exact Hsome.
Defined.

(** X21: for a direction more than 11.25 degrees below zero
    [getWindDirection] returns N when the direction is within 11.25
    degrees of a whole number of turns (the upper bound excluded), and
    [undefined] everywhere else, the index being negative there. *)
Theorem getWindDirection_below_zero (deg : Q) :
  (deg < - (1125 # 100))%Q →
  ((∃ turns : Z,
      (360 * inject_Z turns - (1125 # 100) <= deg)%Q ∧
      (deg < 360 * inject_Z turns + (1125 # 100))%Q) →
   getWindDirection deg = Some "N") ∧
  ((∀ turns : Z,
      ¬ ((360 * inject_Z turns - (1125 # 100) <= deg)%Q ∧
         (deg < 360 * inject_Z turns + (1125 # 100))%Q)) →
   getWindDirection deg = None).
Proof.
  intros Hdeg. destruct (round_sector deg) as [Hlow Hhigh].
  unfold getWindDirection.
  set (n := Qfloor (Math_round (deg / (225 # 10))%Q)) in *.
  assert (Hn : (n < 0)%Z).
  { destruct (Z.lt_ge_cases n 0) as [|Hpos]; [done|].
    assert (Hle : (inject_Z 0 <= inject_Z n)%Q) by (rewrite <- Zle_Qle; lia).
    change (inject_Z 0) with 0%Q in Hle. lra. }
  assert (Hrem : (Z.rem n 16 ≤ 0)%Z) by (apply Z.rem_nonpos; lia).
  pose proof (Z.quot_rem' n 16) as Hsplit.
  split.
  - intros (turns & Hfrom & Hto).
    assert (Hsame : n = (16 * turns)%Z).
    { assert (Hlt : (inject_Z n < inject_Z (16 * turns + 1))%Q).
      { rewrite inject_Z_plus, inject_Z_mult.
        change (inject_Z 16) with 16%Q. change (inject_Z 1) with 1%Q. lra. }
      assert (Hgt : (inject_Z (16 * turns - 1) < inject_Z n)%Q).
      { unfold Z.sub. rewrite inject_Z_plus, inject_Z_mult.
        change (inject_Z 16) with 16%Q. change (inject_Z (- (1))) with (-1)%Q.
        lra. }
      rewrite <- Zlt_Qlt in Hlt, Hgt. lia. }
    rewrite Hsame, Z.mul_comm, Z.rem_mul by done. reflexivity.
  - intros Hfar.
    destruct (Z.ltb_spec (Z.rem n 16) 0) as [|Hzero]; [done|].
    destruct (Hfar (n ÷ 16)%Z).
    assert (Hturns : (inject_Z n == 16 * inject_Z (n ÷ 16))%Q).
    { rewrite Hsplit at 1. replace (Z.rem n 16) with 0%Z by lia.
      rewrite Z.add_0_r, inject_Z_mult. reflexivity. }
    split; lra.
Qed.

Lemma getWindDirection_below_zero_witness :
  getWindDirection (-355) = Some "N" ∧ getWindDirection (-90) = None.
Proof.
  split.
  - apply (proj1 (getWindDirection_below_zero (-355) eq_refl)).
    exists (-1)%Z. split; [discriminate|reflexivity].
  - apply (proj2 (getWindDirection_below_zero (-90) eq_refl)).
    intros turns [Hfrom Hto].
    assert (Hlt : (inject_Z (4 * turns) < inject_Z 0)%Q).
    { rewrite inject_Z_mult. change (inject_Z 4) with 4%Q.
      change (inject_Z 0) with 0%Q. lra. }
    assert (Hgt : (inject_Z (-2) < inject_Z (4 * turns))%Q).
    { rewrite inject_Z_mult. change (inject_Z 4) with 4%Q.
      change (inject_Z (-2)) with (-2)%Q. lra. }
    rewrite <- Zlt_Qlt in Hlt, Hgt. lia.
Defined.

(** ** Elapsed time *)

Lemma getRelativeTime_returns {N : Type} `{Intl} (date : Z) (w : World N) :
  ∃ text,
    getRelativeTime date w
    = Returns text
        {| cities := cities w; selectedCities := selectedCities w;
           localStorage := localStorage w; clock := clock w;
           reads := S (reads w) |} ∧
    text
    = let diffMs := (clock w (reads w) - date)%Z in
      if (diffMs <? 60000)%Z then "Just now"
      else if (diffMs <? 3600000)%Z then
        pretty (diffMs / 60000)%Z +:+ " minute"
        +:+ (if (1 <? diffMs / 60000)%Z then "s" else EmptyString) +:+ " ago"
      else if (diffMs <? 86400000)%Z then
        pretty (diffMs / 3600000)%Z +:+ " hour"
        +:+ (if (1 <? diffMs / 3600000)%Z then "s" else EmptyString) +:+ " ago"
      else if (diffMs <? 604800000)%Z then
        pretty (diffMs / 86400000)%Z +:+ " day"
        +:+ (if (1 <? diffMs / 86400000)%Z then "s" else EmptyString) +:+ " ago"
      else formatDate date "short".
Proof.
  unfold getRelativeTime, bind, Date_now. cbv zeta.
  set (diffMs := (clock w (reads w) - date)%Z).
  assert (Hmins : (diffMs / 1000 / 60 = diffMs / 60000)%Z)
    by (rewrite Z.div_div by lia; done).
  assert (Hhours : (diffMs / 1000 / 60 / 60 = diffMs / 3600000)%Z)
    by (rewrite !Z.div_div by lia; done).
  assert (Hdays : (diffMs / 1000 / 60 / 60 / 24 = diffMs / 86400000)%Z)
    by (rewrite !Z.div_div by lia; done).
  rewrite Hdays, Hhours, Hmins.
  assert (Hs : (diffMs / 1000 <? 60)%Z = (diffMs <? 60000)%Z)
    by (destruct (Z.ltb_spec (diffMs / 1000) 60), (Z.ltb_spec diffMs 60000);
        first [reflexivity|Z.to_euclidean_division_equations; lia]).
  assert (Hm : (diffMs / 60000 <? 60)%Z = (diffMs <? 3600000)%Z)
    by (destruct (Z.ltb_spec (diffMs / 60000) 60), (Z.ltb_spec diffMs 3600000);
        first [reflexivity|Z.to_euclidean_division_equations; lia]).
  assert (Hh : (diffMs / 3600000 <? 24)%Z = (diffMs <? 86400000)%Z)
    by (destruct (Z.ltb_spec (diffMs / 3600000) 24), (Z.ltb_spec diffMs 86400000);
        first [reflexivity|Z.to_euclidean_division_equations; lia]).
  assert (Hd : (diffMs / 86400000 <? 7)%Z = (diffMs <? 604800000)%Z)
    by (destruct (Z.ltb_spec (diffMs / 86400000) 7), (Z.ltb_spec diffMs 604800000);
        first [reflexivity|Z.to_euclidean_division_equations; lia]).
  rewrite Hs, Hm, Hh, Hd. eexists. split; [|reflexivity].
  by repeat case_match.
Qed.

(** X22: [getRelativeTime] counts whole units of the time elapsed between
    the date and the clock: 'Just now' below a minute, and for every date
    in the future; then the whole minutes elapsed below an hour, the whole
    hours below a day, the whole days below a week, each in the singular
    for one unit; and the short form of the date from a week on. *)
Theorem getRelativeTime_whole_units {N : Type} `{Intl} (date : Z) (w : World N) :
  let elapsed := (clock w (reads w) - date)%Z in
  ∃ text w',
    getRelativeTime date w = Returns text w' ∧
    ((elapsed < 60000)%Z → text = "Just now") ∧
    ((60000 ≤ elapsed < 3600000)%Z →
     ∃ m, (1 ≤ m < 60)%Z ∧ (m * 60000 ≤ elapsed < (m + 1) * 60000)%Z ∧
          text = pretty m +:+ " minute"
                 +:+ (if (1 <? m)%Z then "s" else EmptyString) +:+ " ago") ∧
    ((3600000 ≤ elapsed < 86400000)%Z →
     ∃ h, (1 ≤ h < 24)%Z ∧ (h * 3600000 ≤ elapsed < (h + 1) * 3600000)%Z ∧
          text = pretty h +:+ " hour"
                 +:+ (if (1 <? h)%Z then "s" else EmptyString) +:+ " ago") ∧
    ((86400000 ≤ elapsed < 604800000)%Z →
     ∃ n, (1 ≤ n < 7)%Z ∧ (n * 86400000 ≤ elapsed < (n + 1) * 86400000)%Z ∧
          text = pretty n +:+ " day"
                 +:+ (if (1 <? n)%Z then "s" else EmptyString) +:+ " ago") ∧
    ((604800000 ≤ elapsed)%Z → text = formatDate date "short").
Proof.
  intros elapsed.
  destruct (getRelativeTime_returns date w) as (text & Hrun & Htext).
  cbv zeta in Htext. fold elapsed in Htext.
  eexists _, _. split; [exact Hrun|]. revert Htext.
  destruct (Z.ltb_spec elapsed 60000).
  { intros ->. split; [done|]. repeat split; intros; lia. }
  destruct (Z.ltb_spec elapsed 3600000).
  { intros ->. split; [intros; lia|]. split; [|repeat split; intros; lia].
    intros _. exists (elapsed / 60000)%Z.
    split; [|split; [|done]]; Z.to_euclidean_division_equations; lia. }
  destruct (Z.ltb_spec elapsed 86400000).
  { intros ->. do 2 (split; [intros; lia|]). split; [|repeat split; intros; lia].
    intros _. exists (elapsed / 3600000)%Z.
    split; [|split; [|done]]; Z.to_euclidean_division_equations; lia. }
  destruct (Z.ltb_spec elapsed 604800000).
  { intros ->. do 3 (split; [intros; lia|]). split; [|intros; lia].
    intros _. exists (elapsed / 86400000)%Z.
    split; [|split; [|done]]; Z.to_euclidean_division_equations; lia. }
  intros ->. do 4 (split; [intros; lia|]). done.
Qed.

Lemma getRelativeTime_whole_units_witness :
  ∃ w', getRelativeTime (H := plain_intl) (1717200000000 - 5400000)
          (UseCities.useCities (N:=Q) None frozen)
        = Returns "1 hour ago" w'.
Proof.
  destruct (getRelativeTime_whole_units (H := plain_intl) (1717200000000 - 5400000)
              (UseCities.useCities (N:=Q) None frozen))
    as (text & w' & Hrun & _ & _ & Hhours & _).
  destruct Hhours as (h & Hh & Hbounds & ->).
  { vm_compute. split; [discriminate|reflexivity]. }
  exists w'. rewrite Hrun. f_equal.
  change (clock _ _ - _)%Z with 5400000%Z in Hbounds.
  replace h with 1%Z by lia. reflexivity.
Defined.

(** * The daily forecast of the composable *)

Lemma fahrenheit_value (x : Q) :
  convertTemperature x "celsius" "fahrenheit" = (x * 9 / 5 + 32)%Q.
Proof. rewrite celsius_to_fahrenheit. reflexivity. Qed.

Lemma fahrenheit_linear (x : Q) :
  (convertTemperature x "celsius" "fahrenheit" == (9 # 5) * x + 32)%Q.
Proof. rewrite fahrenheit_value. field. Qed.

Lemma Exact_lt_fahrenheit (x y : Q) :
  Exact.lt (convertTemperature x "celsius" "fahrenheit")
           (convertTemperature y "celsius" "fahrenheit")
  = Exact.lt x y.
Proof.
  unfold Exact.lt. f_equal.
  apply Bool.eq_iff_eq_true. rewrite !Qle_bool_iff, !fahrenheit_linear.
  split; intros; lra.
Qed.

Lemma fold_min2_fahrenheit (rest : list Q) : ∀ lowest,
  fold_left Exact.min2
    ((λ t, convertTemperature t "celsius" "fahrenheit") <$> rest)
    (convertTemperature lowest "celsius" "fahrenheit")
  = convertTemperature (fold_left Exact.min2 rest lowest) "celsius" "fahrenheit".
Proof.
  induction rest as [|x rest IH]; intros lowest; [done|].
  rewrite fmap_cons. simpl fold_left. rewrite <- IH. f_equal.
  unfold Exact.min2. rewrite Exact_lt_fahrenheit. by destruct (Exact.lt x lowest).
Qed.

Lemma fold_max2_fahrenheit (rest : list Q) : ∀ highest,
  fold_left Exact.max2
    ((λ t, convertTemperature t "celsius" "fahrenheit") <$> rest)
    (convertTemperature highest "celsius" "fahrenheit")
  = convertTemperature (fold_left Exact.max2 rest highest) "celsius" "fahrenheit".
Proof.
  induction rest as [|x rest IH]; intros highest; [done|].
  rewrite fmap_cons. simpl fold_left. rewrite <- IH. f_equal.
  unfold Exact.max2. rewrite Exact_lt_fahrenheit. by destruct (Exact.lt highest x).
Qed.

Lemma fold_Qplus_shift (xs : list Q) : ∀ acc,
  (fold_left Qplus xs acc == acc + fold_left Qplus xs 0)%Q.
Proof.
  induction xs as [|x xs IH]; intros acc; simpl.
  - ring.
  - rewrite (IH (acc + x)%Q), (IH (0 + x)%Q). ring.
Qed.

Lemma sum_fahrenheit (ts : list Q) :
  (fold_left Qplus ((λ t, convertTemperature t "celsius" "fahrenheit") <$> ts) 0
   == fold_left Qplus ts 0 * 9 / 5 + 32 * inject_Z (Z.of_nat (length ts)))%Q.
Proof.
  induction ts as [|t ts IH].
  - change (inject_Z (Z.of_nat (length (@nil Q)))) with 0%Q. simpl. field.
  - rewrite fmap_cons, inject_length_cons. simpl fold_left.
    rewrite fold_Qplus_shift, IH, (fold_Qplus_shift ts (0 + t)%Q).
    rewrite fahrenheit_value. field.
Qed.

Lemma mean_fahrenheit (ts : list Q) :
  ts ≠ [] →
  (sum ((λ t, convertTemperature t "celsius" "fahrenheit") <$> ts)
   / nlit (Z.of_nat (length ((λ t, convertTemperature t "celsius" "fahrenheit") <$> ts)))
   == convertTemperature (sum ts / nlit (Z.of_nat (length ts)))
        "celsius" "fahrenheit")%Q.
Proof.
  intros Hne. rewrite length_fmap, fahrenheit_value.
  unfold sum. simpl nadd. simpl nlit. change (inject_Z 0) with 0%Q.
  rewrite sum_fahrenheit.
  assert (Hpos : (0 < inject_Z (Z.of_nat (length ts)))%Q).
  { destruct ts as [|t ts]; [done|].
    rewrite <- (Zlt_Qlt 0). simpl length. lia. }
  field. lra.
Qed.

Section DailyForecast.

Context `{Host}.

Lemma samples_on_fahrenheit (date : string) (forecastList : list (Item.t Q)) :
  samples_on date (in_fahrenheit <$> forecastList)
  = in_fahrenheit <$> samples_on date forecastList.
Proof.
  unfold samples_on. induction forecastList as [|item l IH]; [done|].
  rewrite fmap_cons, !filter_cons, IH.
  change (date_of (in_fahrenheit item)) with (date_of item).
  by destruct (decide (date_of item = date)).
Qed.

Lemma dates_fahrenheit (forecastList : list (Item.t Q)) :
  date_of <$> (in_fahrenheit <$> forecastList) = date_of <$> forecastList.
Proof. by rewrite <- list_fmap_compose. Qed.

(* every summary has its minimum below its mean and its mean below its
   maximum *)
Lemma summaries_ordered (forecastList : list (Item.t Q)) :
  Forall (λ s, (Summary.tempMin s <= Summary.tempAvg s)%Q ∧
               (Summary.tempAvg s <= Summary.tempMax s)%Q)
    (processForecastData forecastList).
Proof.
  rewrite processForecastData_grouped. apply Forall_take, Forall_fmap.
  apply Forall_forall. intros date Hdate.
  destruct (samples_on_first_seen _ _ Hdate) as (item & items & Hitems & _).
  unfold compose. rewrite Hitems.
  apply (mean_between (Item.main_temp <$> item :: items)). done.
Qed.

End DailyForecast.

(** X23: over the rationals, the daily forecast shown in fahrenheit, which
    converts the minimum, the maximum and the mean of each day after the
    aggregation, is the aggregation of the forecast with every sample
    converted first: the same days with the same dates, conditions,
    humidity, wind and icons, and temperatures of the same value.  In
    fahrenheit too the mean of a day lies between its minimum and its
    maximum. *)
Theorem dailyForecast_in_fahrenheit (host : Host) (forecastList : list (Item.t Q)) :
  Forall2 same_summary
    (dailyForecast (Some forecastList) "fahrenheit")
    (processForecastData (in_fahrenheit <$> forecastList)) ∧
  Forall (λ s, (Summary.tempMin s <= Summary.tempAvg s)%Q ∧
               (Summary.tempAvg s <= Summary.tempMax s)%Q)
    (dailyForecast (Some forecastList) "fahrenheit").
Proof.
  unfold dailyForecast. simpl String.eqb. cbv iota zeta. split.
  - rewrite !processForecastData_grouped, dates_fahrenheit.
    rewrite fmap_take. apply Forall2_take.
    rewrite <- list_fmap_compose. apply Forall2_fmap, Forall_Forall2_diag.
    apply Forall_forall. intros date Hdate.
    destruct (samples_on_first_seen _ _ Hdate) as (item & items & Hitems & _).
    unfold compose. rewrite samples_on_fahrenheit, Hitems.
    set (temps := Item.main_temp <$> item :: items).
    assert (Htemps : Item.main_temp <$> (in_fahrenheit <$> item :: items)
                     = (λ t, convertTemperature t "celsius" "fahrenheit") <$> temps).
    { unfold temps. by rewrite <- !list_fmap_compose. }
    unfold same_summary, summarise. cbn [Summary.date Summary.tempMin
      Summary.tempMax Summary.tempAvg Summary.condition Summary.humidity
      Summary.wind Summary.icon].
    cbn [Day.date Day.temps Day.conditions Day.humidity
      Day.wind Day.icons day_of].
    fold temps. rewrite Htemps.
    split; [done|]. split; [|split; [|split]].
    + unfold temps. rewrite !fmap_cons. simpl Math_min. unfold Exact.min.
      by rewrite fold_min2_fahrenheit.
    + unfold temps. rewrite !fmap_cons. simpl Math_max. unfold Exact.max.
      by rewrite fold_max2_fahrenheit.
    + symmetry. by apply mean_fahrenheit.
    + by rewrite <- !list_fmap_compose.
  - apply Forall_fmap. eapply Forall_impl; [apply summaries_ordered|].
    intros s [Hlow Hhigh]. unfold compose. simpl.
    rewrite !fahrenheit_linear. split; lra.
Qed.

(** ** More of the daily summaries *)

Lemma round_near (x : Q) :
  ∃ z : Z, Exact.round x = inject_Z z ∧
           (x - (1 # 2) < inject_Z z)%Q ∧ (inject_Z z <= x + (1 # 2))%Q.
Proof.
  exists (Qfloor (x + (1 # 2))). split; [done|].
  pose proof (Qfloor_le (x + (1 # 2))) as Hlow.
  pose proof (Qlt_floor (x + (1 # 2))) as Hhigh.
  rewrite inject_Z_plus in Hhigh. change (inject_Z 1) with 1%Q in Hhigh.
  split; lra.
Qed.

Lemma mean_within (lo hi : Q) (xs : list Q) :
  xs ≠ [] →
  Forall (λ x, (lo <= x)%Q ∧ (x <= hi)%Q) xs →
  (lo <= sum xs / nlit (Z.of_nat (length xs)))%Q ∧
  (sum xs / nlit (Z.of_nat (length xs)) <= hi)%Q.
Proof.
  intros Hne Hall.
  assert (Hpos : (0 < inject_Z (Z.of_nat (length xs)))%Q).
  { destruct xs as [|x xs]; [done|].
    rewrite <- (Zlt_Qlt 0). simpl length. lia. }
  assert (Hlo : Forall (λ x, (lo <= x)%Q) xs).
  { eapply Forall_impl; [exact Hall|]. by intros x [? _]. }
  assert (Hhi : Forall (λ x, (x <= hi)%Q) xs).
  { eapply Forall_impl; [exact Hall|]. by intros x [_ ?]. }
  pose proof (fold_Qplus_lower _ xs 0%Q Hlo) as Hlow.
  pose proof (fold_Qplus_upper _ xs 0%Q Hhi) as Hhigh.
  rewrite Qplus_0_l in Hlow, Hhigh.
  split.
  - by apply Qle_shift_div_l.
  - by apply Qle_shift_div_r.
Qed.

(** X24: over the rationals, the humidity of a daily summary is a whole
    number, the one nearest to the mean of the humidities of the samples of
    the day (within one half of it), and it lies between two whole numbers
    whenever every sample does: between 0 and 100 for percentages.  The
    wind of the summary is a number of tenths, within one twentieth of the
    mean wind speed of the day. *)
Theorem humidity_and_wind_rounded (host : Host) (forecastList : list (Item.t Q))
    (lo hi : Z) :
  Forall (λ item, (inject_Z lo <= Item.main_humidity item)%Q ∧
                  (Item.main_humidity item <= inject_Z hi)%Q) forecastList →
  Forall (λ date,
            let items := samples_on date forecastList in
            let s := summarise (day_of items) in
            let humidity := Item.main_humidity <$> items in
            let wind := Item.wind_speed <$> items in
            let meanHumidity :=
              (sum humidity / inject_Z (Z.of_nat (length humidity)))%Q in
            let meanWind := (sum wind / inject_Z (Z.of_nat (length wind)))%Q in
            (∃ z : Z, Summary.humidity s = inject_Z z ∧
                      (lo ≤ z ≤ hi)%Z ∧
                      (meanHumidity - (1 # 2) < inject_Z z)%Q ∧
                      (inject_Z z <= meanHumidity + (1 # 2))%Q) ∧
            (∃ z : Z, (Summary.wind s == inject_Z z / 10)%Q ∧
                      (meanWind - (1 # 20) < Summary.wind s)%Q ∧
                      (Summary.wind s <= meanWind + (1 # 20))%Q))
    (first_seen (date_of <$> forecastList)).
Proof.
  intros Hrange. apply Forall_forall. intros date Hdate.
  destruct (samples_on_first_seen _ _ Hdate) as (item & items & Hitems & _).
  assert (Hin : Forall (λ item, (inject_Z lo <= Item.main_humidity item)%Q ∧
                                (Item.main_humidity item <= inject_Z hi)%Q)
                  (samples_on date forecastList)).
  { unfold samples_on. apply Forall_forall. intros x [_ Hx]%list_elem_of_filter.
    by apply (proj1 (Forall_forall _ _) Hrange). }
  rewrite Hitems in Hin |- *. cbv zeta.
  set (humidity := Item.main_humidity <$> item :: items).
  set (wind := Item.wind_speed <$> item :: items).
  change (Summary.humidity (summarise (day_of (item :: items))))
    with (Exact.round (sum humidity / inject_Z (Z.of_nat (length humidity)))).
  change (Summary.wind (summarise (day_of (item :: items))))
    with (Exact.round (sum wind / inject_Z (Z.of_nat (length wind)) * inject_Z 10)
          / inject_Z 10)%Q.
  split.
  - destruct (round_near (sum humidity / inject_Z (Z.of_nat (length humidity))))
      as (z & Hz & Hlow & Hhigh).
    exists z. split; [done|]. split; [|done].
    destruct (mean_within (inject_Z lo) (inject_Z hi) humidity) as [Hlo Hhi];
      [done|by apply Forall_fmap|].
    change (nlit (Z.of_nat (length humidity)))
      with (inject_Z (Z.of_nat (length humidity))) in Hlo, Hhi.
    set (mean := (sum humidity / inject_Z (Z.of_nat (length humidity)))%Q) in *.
    split.
    + destruct (Z.le_gt_cases lo z) as [|Hgt]; [done|].
      assert (Hle : (inject_Z (z + 1) <= inject_Z lo)%Q)
        by (rewrite <- Zle_Qle; lia).
      rewrite inject_Z_plus in Hle. change (inject_Z 1) with 1%Q in Hle. lra.
    + destruct (Z.le_gt_cases z hi) as [|Hgt]; [done|].
      assert (Hle : (inject_Z (hi + 1) <= inject_Z z)%Q)
        by (rewrite <- Zle_Qle; lia).
      rewrite inject_Z_plus in Hle. change (inject_Z 1) with 1%Q in Hle. lra.
  - destruct (round_near (sum wind / inject_Z (Z.of_nat (length wind)) * inject_Z 10))
      as (z & Hz & Hlow & Hhigh).
    exists z. rewrite Hz. change (inject_Z 10) with 10%Q in *.
    split; [reflexivity|].
    set (mean := (sum wind / inject_Z (Z.of_nat (length wind)))%Q) in *.
    assert (Htenth : (inject_Z z / 10 == inject_Z z * (1 # 10))%Q) by field.
    rewrite Htenth. split; lra.
Qed.

Lemma humidity_and_wind_rounded_witness :
  Forall (λ date,
            ∃ z : Z,
              Summary.humidity
                (summarise (day_of (samples_on date (june_first_2024 (N:=Q)))))
              = inject_Z z ∧ (0 ≤ z ≤ 100)%Z)
    (first_seen (date_of <$> june_first_2024 (N:=Q))).
Proof.
  eapply Forall_impl.
  - apply (humidity_and_wind_rounded Utc.host june_first_2024 0 100).
    repeat constructor; vm_compute; discriminate.
  - intros date [(z & Hz & Hrange & _) _]. by exists z.
Defined.

Lemma first_seen_app (keys more : list string) :
  ∃ new, first_seen (keys ++ more) = first_seen keys ++ new.
Proof.
  induction more as [|k more [new IH]] using rev_ind.
  - exists []. by rewrite !app_nil_r.
  - rewrite app_assoc, first_seen_snoc, IH, <- app_assoc. eauto.
Qed.

(** X25: once five dates have been met, samples of other dates change
    nothing: a forecast extended by samples none of which falls on one of
    its first five dates has the same five summaries.  (The forecast of
    the API runs into a sixth day, which is dropped.) *)
Theorem processForecastData_ignores_later_dates {N : Type} `{Number N} `{Host}
    (forecastList later : list (Item.t N)) :
  5 ≤ length (first_seen (date_of <$> forecastList)) →
  (∀ item, item ∈ later →
           date_of item ∉ take 5 (first_seen (date_of <$> forecastList))) →
  processForecastData (forecastList ++ later) = processForecastData forecastList.
Proof.
  intros Hfive Hlater. rewrite !processForecastData_grouped, fmap_app.
  destruct (first_seen_app (date_of <$> forecastList) (date_of <$> later))
    as [new ->].
  rewrite fmap_app, take_app_le by (rewrite length_fmap; lia).
  rewrite <- !fmap_take. apply list_fmap_ext. intros i date Hdate.
  apply list_elem_of_lookup_2 in Hdate. do 2 f_equal.
  assert (Hnone : samples_on date later = []).
  { apply samples_on_nil.
    intros (item & -> & Hitem)%list_elem_of_fmap. by apply (Hlater item). }
  unfold samples_on in *. by rewrite filter_app, Hnone, app_nil_r.
Qed.

Lemma processForecastData_ignores_later_dates_witness :
  processForecastData (take 5 six_days ++ drop 5 six_days)
  = processForecastData (take 5 six_days).
Proof.
  apply (processForecastData_ignores_later_dates (take 5 six_days) (drop 5 six_days)).
  - vm_compute. lia.
  - intros item Hitem. apply list_elem_of_singleton in Hitem as ->.
    apply (bool_decide_unpack _). vm_compute. reflexivity.
Defined.

(** X26: a daily summary always has a condition and an icon, never
    [undefined]: each is the [weather[0].main], respectively the
    [weather[0].icon], of a sample of the forecast that falls on the date
    of the summary. *)
Theorem summaries_have_condition_and_icon {N : Type} `{Number N} `{Host}
    (forecastList : list (Item.t N)) :
  Forall (λ s,
            (∃ item, item ∈ forecastList ∧
                     date_of item = toDateString (Summary.date s) ∧
                     Summary.condition s = Some (Item.weather_main item)) ∧
            (∃ item, item ∈ forecastList ∧
                     date_of item = toDateString (Summary.date s) ∧
                     Summary.icon s = Some (Item.weather_icon item)))
    (processForecastData forecastList).
Proof.
  rewrite processForecastData_grouped. apply Forall_take, Forall_fmap.
  apply Forall_forall. intros date Hdate. unfold compose.
  destruct (samples_on_first_seen _ _ Hdate) as (first & items & Hitems & Hfirst).
  assert (Hsub : ∀ item, item ∈ first :: items →
                         item ∈ forecastList ∧ date_of item = date).
  { intros item. rewrite <- Hitems. unfold samples_on.
    rewrite list_elem_of_filter. tauto. }
  rewrite Hitems.
  assert (Hfrequent : ∀ (f : Item.t N → string),
    ∃ item, item ∈ first :: items ∧
            getMostFrequent (f <$> first :: items) = Some (f item)).
  { intros f. destruct (getMostFrequent_element (f <$> first :: items))
      as (x & -> & Hx); [done|].
    apply list_elem_of_fmap in Hx as (item & -> & Hitem). by exists item. }
  change (Summary.date (summarise (day_of (first :: items))))
    with (Item.dt first * 1000)%Z.
  fold (date_of first). rewrite Hfirst.
  split.
  - destruct (Hfrequent Item.weather_main) as (item & Hitem & Hcondition).
    exists item. destruct (Hsub item Hitem). done.
  - destruct (Hfrequent Item.weather_icon) as (item & Hitem & Hicon).
    exists item. destruct (Hsub item Hitem). done.
Qed.

Lemma addToSearchHistory_puts_city_first_witness :
  ∃ d' w',
    Settings.addToSearchHistory london sample_disk
      (UseCities.useCities None frozen) = Returns d' w' ∧
    Settings.getSearchHistory d' !! 0
    = Some {| Search.city := london;
              Search.searchedAt := "2024-06-01T00:00:00.000Z" |} ∧
    length (Settings.getSearchHistory d') ≤ 10.
Proof.
  destruct (addToSearchHistory_puts_city_first london sample_disk
              (UseCities.useCities None frozen))
    as (d' & w' & Hrun & Hfirst & Hlength & _).
  exists d', w'. split; [exact Hrun|]. split; [|exact Hlength].
  rewrite Hfirst. reflexivity.
Defined.

(** * The stored cities, and the selection *)

Section StoredCities.

Context {N : Type} `{Number N} `{Show N} `{Host}.

Lemma filter_other_id_Some (cityId : string) (cs cs' : list (value N)) :
  filter_other_id cityId cs = Some cs' → Forall is_city cs'.
Proof.
  revert cs'. induction cs as [|v cs IH]; simpl; intros cs'.
  - intros [= <-]. constructor.
  - destruct v as [c| |]; [|done..].
    destruct (filter_other_id cityId cs) as [rest|]; [|done]. simpl.
    intros [= <-]. specialize (IH rest eq_refl).
    destruct (String.eqb (City.id c) cityId); [done|]. by constructor.
Qed.

Lemma storage_addCity_saved (city : City.t N) (w : World N) :
  saved (state_after (Storage.addCity city w)) = saved w
  ∨ (some_same_place city (saved w) = Some false ∧
     saved (state_after (Storage.addCity city w))
     = saved w ++ [VCity (stamp city (clock w (reads w)) (clock w (S (reads w))))]).
Proof.
  enter Storage.addCity. fold (saved w). unfold or_throw.
  destruct (some_same_place city (saved w)) as [[|]|] eqn:Hsome;
    [by left| |by left].
  right. split; [done|]. simpl. unfold saved at 1. simpl.
  apply some_same_place_false in Hsome as [Hcities _].
  apply JSON_roundtrip_cities, Forall_app. split; [done|]. by repeat constructor.
Qed.

Lemma storage_removeCity_saved (cityId : string) (w : World N) :
  saved (state_after (Storage.removeCity cityId w)) = saved w
  ∨ filter_other_id cityId (saved w)
    = Some (saved (state_after (Storage.removeCity cityId w))).
Proof.
  enter Storage.removeCity. fold (saved w). unfold or_throw.
  destruct (filter_other_id cityId (saved w)) as [cs|] eqn:Hfilter; [|by left].
  right. simpl. unfold saved at 1. simpl.
  by rewrite JSON_roundtrip_cities by by eapply filter_other_id_Some.
Qed.

End StoredCities.

(** X27: the stored list too keeps its places distinct: when no stored
    city has the latitude and longitude of an earlier one, this is still so
    after [addCity] and after [removeCity] of the storage module, for every
    argument and however the call ends; and what [addCity] returns is the
    list then stored. *)
Theorem stored_places_stay_distinct {N : Type} `{Number N} `{Show N} `{Host}
    (city : City.t N) (cityId : string) (w : World N) :
  distinct_places (saved w) →
  distinct_places (saved (state_after (Storage.addCity city w))) ∧
  distinct_places (saved (state_after (Storage.removeCity cityId w))) ∧
  (∀ cs w', Storage.addCity city w = Returns cs w' → cs = saved w').
Proof.
  intros Hdistinct. split; [|split].
  - destruct (storage_addCity_saved city w) as [->|(Hnone & ->)]; [done|].
    apply some_same_place_false in Hnone as [_ Hnone].
    by apply distinct_places_snoc.
  - destruct (storage_removeCity_saved cityId w) as [->|Hfilter]; [done|].
    eapply distinct_places_sublist; [|done].
    by eapply filter_other_id_sublist.
  - intros cs w'. enter Storage.addCity. unfold or_throw.
    destruct (some_same_place city _) as [[|]|]; simpl; [|..|done].
    + by intros [= <- <-].
    + by intros [= <- <-].
Qed.

Lemma stored_places_stay_distinct_witness :
  distinct_places (saved (state_after
    (Storage.addCity rome (UseCities.useCities (Some three_cities) frozen)))) ∧
  distinct_places (saved (state_after
    (Storage.removeCity (City.id paris)
       (UseCities.useCities (Some three_cities) frozen)))).
Proof.
  destruct (stored_places_stay_distinct rome (City.id paris)
              (UseCities.useCities (Some three_cities) frozen)
              three_cities_distinct) as (Hadd & Hremove & _).
  split; [exact Hadd|exact Hremove].
Defined.

(** X28: [toggleCitySelection] adds the id it is given to the end of the
    selection when the selection does not have it, and takes its first
    occurrence out when it has; so that on a selection without a repeated
    id the call flips the selection of that id and leaves a selection
    without a repeated id.  It changes the selection of no other id: every
    other id is selected after the call if and only if it was before; and
    the cities and local storage are untouched. *)
Theorem toggleCitySelection_keeps_others {N : Type} `{Number N} `{Show N} `{Host}
    (cityId : string) (w : World N) :
  ∃ w',
    UseCities.toggleCitySelection cityId w = Returns tt w' ∧
    (cityId ∉ selectedCities w →
     selectedCities w' = selectedCities w ++ [cityId]) ∧
    (cityId ∈ selectedCities w →
     ∃ pre post, selectedCities w = pre ++ cityId :: post ∧
                 (cityId ∉ pre) ∧
                 selectedCities w' = pre ++ post) ∧
    (NoDup (selectedCities w) →
     NoDup (selectedCities w') ∧
     (cityId ∈ selectedCities w' ↔ cityId ∉ selectedCities w)) ∧
    (∀ other, other ≠ cityId →
              (other ∈ selectedCities w' ↔ other ∈ selectedCities w)) ∧
    cities w' = cities w ∧
    localStorage w' = localStorage w.
Proof.
  destruct (decide (cityId ∈ selectedCities w)) as [Hin|Hout].
  - destruct (list_elem_of_split_l _ _ Hin) as (pre & post & Hsel & Hpre).
    eexists. split; [by apply toggle_present|]. simpl.
    split; [done|]. split; [by exists pre, post|].
    split; [|split; [|done]].
    + rewrite Hsel. intros Hnodup.
      apply NoDup_app in Hnodup as (Hpre' & Hdisjoint & Hpost).
      apply NoDup_cons in Hpost as [Hlast Hpost].
      split.
      * apply NoDup_app. split; [done|]. split; [|done].
        intros x Hx Hx'. apply (Hdisjoint x Hx). by apply list_elem_of_further.
      * rewrite elem_of_app. split; [tauto|]. intros Hnot. destruct Hnot.
        apply elem_of_app. right. apply list_elem_of_here.
    + intros other Hother. rewrite Hsel, !elem_of_app, elem_of_cons. tauto.
  - eexists. split; [by apply toggle_absent|]. simpl.
    split; [done|]. split; [done|]. split; [|split; [|done]].
    + intros Hnodup. split.
      * apply NoDup_app. split; [done|]. split.
        -- intros x Hx ->%list_elem_of_singleton. done.
        -- apply NoDup_singleton.
      * split; [done|]. intros _. apply elem_of_app. right.
        apply list_elem_of_here.
    + intros other Hother. rewrite elem_of_app, list_elem_of_singleton. tauto.
Qed.

Lemma toggleCitySelection_keeps_others_witness :
  ∃ w', UseCities.toggleCitySelection (City.id paris)
          {| cities := three_cities; selectedCities := [City.id paris; City.id tokyo];
             localStorage := None; clock := frozen; reads := 0 |}
        = Returns tt w' ∧
        (City.id paris ∉ selectedCities w') ∧
        City.id tokyo ∈ selectedCities w'.
Proof.
  destruct (toggleCitySelection_keeps_others (City.id paris)
    {| cities := three_cities; selectedCities := [City.id paris; City.id tokyo];
       localStorage := None; clock := frozen; reads := 0 |})
    as (w' & Hrun & _ & _ & Hflip & Hothers & _).
  exists w'. split; [exact Hrun|]. split.
  - destruct Hflip as [_ Hflip].
    { apply (bool_decide_unpack _). reflexivity. }
    intros Hin. apply Hflip in Hin. apply Hin. simpl. apply list_elem_of_here.
  - apply Hothers.
    + vm_compute. discriminate.
    + simpl. apply list_elem_of_further, list_elem_of_here.
Defined.
